(** * fpk-compose-builder: the generation and derivation rules, verified

    A shallow embedding of the Go packages [parser], [generator] and
    [builder] and the properties the specification states about them.

    Conventions of the embedding:
    - a Go [string] is a [string] (a sequence of bytes, [ascii] being a byte);
    - a Go [int] is a [Z];
    - a Go [map[string]V] is a [gmap string V]; where a loop ranges over a
      map and its outcome can depend on the order in which Go yields the
      entries, that order is an explicit argument of the function;
    - file-system and image-library calls are calls into an environment
      whose answers are arguments of the model. *)

From Stdlib Require Import ZArith Lia Ascii String DecimalString.
From stdpp Require Import base list strings gmap sorting.

Local Open Scope Z_scope.

(** Let [simpl] compute the append of strings. *)
#[local] Arguments String.append !_ _ : simpl nomatch.

(** ** Go's [strings] and [fmt], as far as the program uses them *)

Module GoStrings.

(** [strings.Contains(s, sep)] for a one-byte [sep]. *)
Fixpoint Contains (s : string) (sep : ascii) : bool :=
  match s with
  | EmptyString => false
  | String c r => if Ascii.eqb c sep then true else Contains r sep
  end.

(** [strings.Split(s, sep)] for a one-byte [sep], the only form the
    program calls: every separator ends a piece, so the result has one
    more element than [s] has separators and is never empty. *)
Fixpoint Split (s : string) (sep : ascii) : list string :=
  match s with
  | EmptyString => [EmptyString]
  | String c r =>
      if Ascii.eqb c sep then EmptyString :: Split r sep
      else match Split r sep with
           | [] => [String c EmptyString]
           | p :: ps => String c p :: ps
           end
  end.

(** [strings.Join(elems, sep)]. *)
Definition Join (elems : list string) (sep : string) : string :=
  String.concat sep elems.

(** [strings.LastIndex(s, sep)] for a one-byte [sep]: the byte offset of
    the last occurrence, [-1] when there is none. *)
Fixpoint LastIndex (s : string) (sep : ascii) : Z :=
  match s with
  | EmptyString => -1
  | String c r =>
      let i := LastIndex r sep in
      if 0 <=? i then i + 1
      else if Ascii.eqb c sep then 0 else -1
  end.

(** The slices [s[:i]] and [s[i:]]. *)
Fixpoint slice_to (s : string) (i : nat) : string :=
  match i, s with
  | S i', String c r => String c (slice_to r i')
  | _, _ => EmptyString
  end.

Fixpoint slice_from (s : string) (i : nat) : string :=
  match i, s with
  | S i', String _ r => slice_from r i'
  | _, _ => s
  end.

(** [len(s)], a byte count. *)
Definition len (s : string) : Z := Z.of_nat (String.length s).

(** [strings.HasPrefix(s, prefix)]. *)
Definition HasPrefix (s prefix : string) : bool := String.prefix prefix s.

(** [strings.HasSuffix(s, suffix)]. *)
Definition HasSuffix (s suffix : string) : bool :=
  String.prefix (String.rev suffix) (String.rev s).

(** [strings.ReplaceAll(s, old, new)] for a non-empty [old]: the
    non-overlapping occurrences of [old], found left to right, are
    replaced.  [skip] counts the bytes of a matched occurrence that are
    still to be passed over.  (For an empty [old] Go inserts [new] at
    every rune boundary; the program only passes the three placeholder
    constants, and [ReplaceAll] leaves the text alone in that case.) *)
Fixpoint replace_from (skip : nat) (s old new : string) : string :=
  match s with
  | EmptyString => EmptyString
  | String c r =>
      match skip with
      | S k => replace_from k r old new
      | O =>
          if String.prefix old s
          then new +:+ replace_from (Nat.pred (String.length old)) r old new
          else String c (replace_from O r old new)
      end
  end.

Definition ReplaceAll (s old new : string) : string :=
  match old with
  | EmptyString => s
  | _ => replace_from O s old new
  end.

(** *** Rune counting, which [fmt] uses to pad

    [utf8.RuneCountInString]: a byte below 0x80 is one rune; a leading
    byte announces 2, 3 or 4 bytes and the range its second byte must
    lie in; a sequence that is cut short or has a byte out of range
    counts its first byte as one rune of its own. *)

Definition byte_val (c : ascii) : Z := Z.of_N (N_of_ascii c).

(** The table [first] joined with [acceptRanges]: the size a leading
    byte announces and the range accepted for the second byte; [None]
    for a byte that cannot start a sequence. *)
Definition first (b : Z) : option (nat * Z * Z) :=
  if b <? 0x80 then Some (1%nat, 0, 0)
  else if b <? 0xC2 then None
  else if b <? 0xE0 then Some (2%nat, 0x80, 0xBF)
  else if b =? 0xE0 then Some (3%nat, 0xA0, 0xBF)
  else if b <? 0xED then Some (3%nat, 0x80, 0xBF)
  else if b =? 0xED then Some (3%nat, 0x80, 0x9F)
  else if b <? 0xF0 then Some (3%nat, 0x80, 0xBF)
  else if b =? 0xF0 then Some (4%nat, 0x90, 0xBF)
  else if b <? 0xF4 then Some (4%nat, 0x80, 0xBF)
  else if b =? 0xF4 then Some (4%nat, 0x80, 0x8F)
  else None.

Definition in_range (lo hi : Z) (c : ascii) : bool :=
  (lo <=? byte_val c) && (byte_val c <=? hi).

(** The number of bytes the rune starting with [c] takes, [r] being the
    bytes after [c]. *)
Definition rune_size (c : ascii) (r : string) : nat :=
  match first (byte_val c) with
  | None => 1
  | Some (1, _, _) => 1
  | Some (size, lo, hi) =>
      if (Nat.ltb (String.length r) (Nat.pred size)) then 1
      else match r with
           | String c1 r1 =>
               if negb (in_range lo hi c1) then 1
               else if Nat.eqb size 2 then 2
               else match r1 with
                    | String c2 r2 =>
                        if negb (in_range 0x80 0xBF c2) then 1
                        else if Nat.eqb size 3 then 3
                        else match r2 with
                             | String c3 _ =>
                                 if negb (in_range 0x80 0xBF c3) then 1 else 4
                             | EmptyString => 1
                             end
                    | EmptyString => 1
                    end
           | EmptyString => 1
           end
  end%nat.

Fixpoint rune_count_from (skip : nat) (s : string) : nat :=
  match s with
  | EmptyString => O
  | String c r =>
      match skip with
      | S k => rune_count_from k r
      | O => S (rune_count_from (Nat.pred (rune_size c r)) r)
      end
  end.

Definition RuneCountInString (s : string) : nat := rune_count_from O s.

(** [n] spaces. *)
Fixpoint spaces (n : nat) : string :=
  match n with
  | O => EmptyString
  | S k => String " "%char (spaces k)
  end.

(** The verb [%-16s] of [fmt.Sprintf]: the string, then spaces up to a
    width of [width] runes; a string that is already as wide is printed
    whole. *)
Definition pad_right (width : nat) (s : string) : string :=
  s +:+ spaces (width - RuneCountInString s)%nat.

End GoStrings.

(** ** Package [parser] *)

Module Parser.
Import GoStrings.

(** [Service]: the fields the program interprets.  The other fields of
    the Go struct are only decoded and are never read. *)
Record Service := {
  Image : string;
  ContainerName : string;
  Ports : list string
}.

(** [Variables], the five substitution values. *)
Record Variables := {
  ServiceName : string;
  VContainerName : string;
  FirstPort : string;
  ImageOrg : string;
  ImageName : string
}.

(** The zero value [var vars Variables]. *)
Definition zero_Variables : Variables :=
  {| ServiceName := ""; VContainerName := ""; FirstPort := "";
     ImageOrg := ""; ImageName := "" |}.

(** [extractHostPort]: [strings.Split(portMapping, "/")[0]], then the
    switch on the number of colon-separated parts. *)
Definition extractHostPort (portMapping : string) : string :=
  let portMapping := hd EmptyString (Split portMapping "/") in
  let parts := Split portMapping ":" in
  match parts with
  | [p0] => p0
  | [p0; _] => p0
  | [_; p1; _] => p1
  | _ => ""
  end.

(** [extractImageInfo]. *)
Definition extractImageInfo (image : string) : string * string :=
  if String.eqb image "" then ("", "")
  else
    let idx := LastIndex image ":" in
    let image :=
      if negb (idx =? -1)
      then if negb (Contains (slice_from image (Z.to_nat idx)) "/")
           then slice_to image (Z.to_nat idx)
           else image
      else image in
    let parts := Split image "/" in
    match parts with
    | [p0] => (p0, p0)
    | [p0; p1] => (p0, p1)
    | _ => (nth (length parts - 2)%nat parts "",
            nth (length parts - 1)%nat parts "")
    end.

End Parser.

Module ParserTypes.
Import Parser.

(** A decoded YAML scalar or node, as [yaml.v3] hands it over in an
    [interface{}].  The program only inspects the dynamic type; for a
    [float64] and for any other node (nil, a list, a map) the value
    carries the text that the verb [%v] prints for it. *)
Inductive Value :=
| VString (s : string)
| VInt (n : Z)
| VFloat (text : string)
| VBool (b : bool)
| VOther (text : string).

(** [XFnpack]: the manifest object and the path-keyed files. *)
Record XFnpack := {
  Manifest : gmap string Value;
  Files : gmap string string
}.

(** [ComposeFile]. [Networks] and [Volumes] are never interpreted. *)
Record ComposeFile := {
  XFnpackOf : XFnpack;
  Services : gmap string Service
}.

(** The zero value of [Service], which a lookup of an absent key yields. *)
Definition zero_Service : Service :=
  {| Image := ""; ContainerName := ""; Ports := [] |}.

(** [sort.Strings]: ascending order of the byte-wise comparison. *)
Definition sort_Strings (l : list string) : list string :=
  merge_sort String.le l.

(** [ExtractVariables], [names] being the service names in the order in
    which [range compose.Services] yields them. *)
Definition ExtractVariables_range (names : list string)
    (compose : ComposeFile) : Variables :=
  if bool_decide (size (Services compose) = 0%nat) then zero_Variables
  else
    let serviceNames := sort_Strings names in
    let firstServiceName := hd "" serviceNames in
    let firstService :=
      default zero_Service (Services compose !! firstServiceName) in
    let containerName :=
      if negb (String.eqb (ContainerName firstService) "")
      then ContainerName firstService
      else firstServiceName in
    let firstPort :=
      match Ports firstService with
      | p :: _ => extractHostPort p
      | [] => ""
      end in
    let '(org, name) := extractImageInfo (Image firstService) in
    {| ServiceName := firstServiceName;
       VContainerName := containerName;
       FirstPort := firstPort;
       ImageOrg := org;
       ImageName := name |}.

(** [ExtractVariables] with the names in the map's own enumeration. *)
Definition ExtractVariables (compose : ComposeFile) : Variables :=
  ExtractVariables_range (map_to_list (Services compose)).*1 compose.

End ParserTypes.

(** ** Package [generator] *)

Module Generator.
Import GoStrings Parser ParserTypes.

(** The line feed. *)
Definition NL : string := String "010"%char EmptyString.

(** *** replacer.go *)

(** The order in which [range replacements] yields the three entries of
    the map literal; Go leaves it unspecified, and it may differ from one
    call to the next.  [S], [C] and [F] stand for the service-name, the
    container-name and the first-port entry. *)
Inductive RangeOrder := SCF | SFC | CSF | CFS | FSC | FCS.

Definition replacements (vars : Variables) (o : RangeOrder)
    : list (string * string) :=
  let s := ("${SERVICE_NAME}", ServiceName vars) in
  let c := ("${CONTAINER_NAME}", VContainerName vars) in
  let f := ("${FIRST_PORT}", FirstPort vars) in
  match o with
  | SCF => [s; c; f] | SFC => [s; f; c]
  | CSF => [c; s; f] | CFS => [c; f; s]
  | FSC => [f; s; c] | FCS => [f; c; s]
  end.

(** [ReplaceVariables], under the iteration order [o]. *)
Definition ReplaceVariables (o : RangeOrder) (content : string)
    (vars : Variables) : string :=
  fold_left (fun result pv => ReplaceAll result pv.1 pv.2)
    (replacements vars o) content.

(** *** manifest.go *)

Definition ManifestDefaults : gmap string string :=
  list_to_map
    [("arch", "x86_64"); ("source", "thirdparty");
     ("desktop_uidir", "ui"); ("version", "1.0.0")].

Definition ManifestFieldOrder : list string :=
  ["appname"; "version"; "display_name"; "desc"; "arch"; "source";
   "maintainer"; "maintainer_url"; "distributor"; "distributor_url";
   "os_min_ver"; "beta"; "reloadui"; "desktop_uidir";
   "desktop_applaunchname"; "changelog"; "ctl_stop"; "checkport";
   "install_type"; "service_port"].

(** The decimal text of an [int], as [%v] prints it. *)
Definition format_int (n : Z) : string :=
  DecimalString.NilZero.string_of_int (Z.to_int n).

(** [formatManifestValue]. *)
Definition formatManifestValue (value : Value) : string :=
  match value with
  | VString v => v
  | VInt n => format_int n
  | VFloat text => text
  | VBool v => if v then "yes" else "no"
  | VOther text => text
  end.

(** [formatManifestLine]. *)
Definition formatManifestLine (key value : string) : string :=
  if len key <? 16
  then pad_right 16 key +:+ "= " +:+ value
  else key +:+ " = " +:+ value.

(** [result[key] = value] for every entry of a list, in its order. *)
Definition assign_all (entries : list (string * string))
    (result : gmap string string) : gmap string string :=
  fold_left (fun r kv => <[kv.1 := kv.2]> r) entries result.

(** The first part of [GenerateManifest]: the map [result] as it stands
    when the output is built.  [entries] are the entries of [manifest] in
    the order in which [range manifest] yields them, and [sched key] is
    the iteration order of the [ReplaceVariables] call made for the
    manifest entry [key]. *)
Definition resolve_range (entries : list (string * Value))
    (sched : string -> RangeOrder)
    (manifest : gmap string Value) (vars : Variables)
    : gmap string string :=
  let result := assign_all (map_to_list ManifestDefaults) ∅ in
  let result :=
    if negb (String.eqb (ServiceName vars) "")
    then <["desktop_applaunchname" := ServiceName vars +:+ ".Application"]>
           (<["display_name" := ServiceName vars]>
              (<["appname" := ServiceName vars]> result))
    else result in
  let result :=
    if negb (String.eqb (ImageOrg vars) "")
    then <["distributor" := ImageOrg vars]>
           (<["maintainer" := ImageOrg vars]> result)
    else result in
  let result :=
    if negb (String.eqb (ImageName vars) "")
    then <["desc" := ImageName vars]> result
    else if negb (String.eqb (ServiceName vars) "")
         then <["desc" := ServiceName vars]> result
         else result in
  let result :=
    if negb (String.eqb (FirstPort vars) "")
    then <["service_port" := FirstPort vars]> result
    else result in
  let result :=
    assign_all
      (map (fun kv => (kv.1, ReplaceVariables (sched kv.1)
                               (formatManifestValue kv.2) vars))
           entries)
      result in
  match manifest !! "desktop_applaunchname", manifest !! "desktop_appname" with
  | None, None =>
      match result !! "appname" with
      | Some appname =>
          if negb (String.eqb appname "")
          then <["desktop_applaunchname" := appname +:+ ".Application"]> result
          else result
      | None => result
      end
  | _, _ => result
  end.

Definition resolve (sched : string -> RangeOrder)
    (manifest : gmap string Value) (vars : Variables)
    : gmap string string :=
  resolve_range (map_to_list manifest) sched manifest vars.

(** [value, ok := result[key]; ok && value != ""]. *)
Definition has_value (result : gmap string string) (key : string) : bool :=
  match result !! key with
  | Some value => negb (String.eqb value "")
  | None => false
  end.

(** The keys the first output loop emits, which are also the keys it
    records in [addedKeys]. *)
Definition ordered_keys (result : gmap string string) : list string :=
  filter (fun key => has_value result key = true) ManifestFieldOrder.

(** [remainingKeys] after [sort.Strings], [keys] being the keys of
    [result] in the order in which [range result] yields them. *)
Definition remaining_keys (keys : list string)
    (result : gmap string string) : list string :=
  let addedKeys := ordered_keys result in
  sort_Strings
    (filter (fun key => bool_decide (key ∉ addedKeys)
                        && negb (String.eqb (default "" (result !! key)) "")
                        = true)
            keys).

(** The second part of [GenerateManifest]: the lines for a given
    [result], joined and terminated. *)
Definition emit (keys : list string) (result : gmap string string)
    : string :=
  let lines :=
    map (fun key => formatManifestLine key (default "" (result !! key)))
        (ordered_keys result ++ remaining_keys keys result) in
  Join lines NL +:+ NL.

(** [GenerateManifest], the orders of its two loops over a map being
    given: [entries] for [range manifest], and [keys_of result] for
    [range result]. *)
Definition GenerateManifest_range (entries : list (string * Value))
    (keys_of : gmap string string -> list string)
    (sched : string -> RangeOrder)
    (manifest : gmap string Value) (vars : Variables) : string :=
  let result := resolve_range entries sched manifest vars in
  emit (keys_of result) result.

(** [GenerateManifest] with both maps in their own enumeration. *)
Definition GenerateManifest (sched : string -> RangeOrder)
    (manifest : gmap string Value) (vars : Variables) : string :=
  GenerateManifest_range (map_to_list manifest)
    (fun result => (map_to_list result).*1) sched manifest vars.

(** [GetManifestAppname]. *)
Definition GetManifestAppname (manifest : gmap string Value)
    (vars : Variables) : string :=
  match manifest !! "appname" with
  | Some appname => formatManifestValue appname
  | None => ServiceName vars
  end.

(** [GetManifestVersion]. *)
Definition GetManifestVersion (manifest : gmap string Value) : string :=
  match manifest !! "version" with
  | Some version => formatManifestValue version
  | None => default "" (ManifestDefaults !! "version")
  end.

End Generator.

(** *** config.go and ui.go: the JSON artifacts *)

Module GeneratorJSON.
Import GoStrings Parser ParserTypes Generator.

(** What [encoding/json] is given: an object lists its members in the
    order the encoder emits them (struct fields in declaration order, an
    [omitempty] field left out when empty). *)
#[local] Set Warnings "-register-all".
Inductive json :=
| JString (s : string)
| JBool (b : bool)
| JArray (items : list json)
| JObject (members : list (string * json)).

(** A member tagged [omitempty]. *)
Definition omitempty (name value : string) : list (string * json) :=
  if String.eqb value "" then [] else [(name, JString value)].

Section Marshal.
(** The string encoder of [encoding/json] (quoting and escaping). *)
Variable quote : string -> string.

Fixpoint indent (depth : nat) : string :=
  match depth with
  | O => ""
  | S d => "    " +:+ indent d
  end.

(** [json.MarshalIndent(data, "", "    ")]. *)
Fixpoint encode (depth : nat) (v : json) : string :=
  match v with
  | JString s => quote s
  | JBool b => if b then "true" else "false"
  | JArray [] => "[]"
  | JArray items =>
      "[" +:+ NL
      +:+ Join (map (fun item => indent (S depth) +:+ encode (S depth) item)
                    items) ("," +:+ NL)
      +:+ NL +:+ indent depth +:+ "]"
  | JObject [] => "{}"
  | JObject members =>
      "{" +:+ NL
      +:+ Join (map (fun m => indent (S depth) +:+ quote (fst m) +:+ ": "
                              +:+ encode (S depth) (snd m))
                    members) ("," +:+ NL)
      +:+ NL +:+ indent depth +:+ "}"
  end.

(** [marshalJSON].  Its error branch is dead for the three values the
    program passes, which hold strings and booleans only. *)
Definition marshalJSON (data : json) : string := encode 0 data +:+ NL.

(** [PrivilegeConfig] as populated by [GeneratePrivilege]. *)
Definition PrivilegeConfig (vars : Variables) : json :=
  JObject ([("defaults", JObject [("run-as", JString "package")])]
           ++ omitempty "username" (ServiceName vars)
           ++ omitempty "groupname" (ServiceName vars)).

Definition GeneratePrivilege (vars : Variables) : string :=
  marshalJSON (PrivilegeConfig vars).

(** [ResourceConfig] as populated by [GenerateResource]. *)
Definition ResourceConfig (vars : Variables) : json :=
  JObject
    [("docker-project",
      JObject
        [("projects",
          JArray [JObject [("name", JString (ServiceName vars));
                           ("path", JString "docker")]])])].

Definition GenerateResource (vars : Variables) : string :=
  marshalJSON (ResourceConfig vars).

(** [UIConfigEntry] as populated by [GenerateDefaultUIConfig]. *)
Definition UIConfigEntry (vars : Variables) : list (string * json) :=
  [("title", JString (ServiceName vars));
   ("icon", JString "images/icon_{0}.png");
   ("type", JString "url")]
  ++ omitempty "protocol" "http"
  ++ omitempty "port" (FirstPort vars)
  ++ [("url", JString "/"); ("allUsers", JBool true)].

(** The value [config] of [GenerateDefaultUIConfig]. *)
Definition DefaultUIConfig (vars : Variables) : json :=
  let appEntry := ServiceName vars +:+ ".Application" in
  JObject [(".url", JObject [(appEntry, JObject (UIConfigEntry vars))])].

Definition GenerateDefaultUIConfig (vars : Variables) : string :=
  marshalJSON (DefaultUIConfig vars).
End Marshal.


End GeneratorJSON.

(** ** Go's [image] and [image/draw], as far as [squareImage] uses them *)

Module GoImage.

Record Point := { X : Z; Y : Z }.

Record Rectangle := { Min : Point; Max : Point }.

Definition Dx (r : Rectangle) : Z := X (Max r) - X (Min r).
Definition Dy (r : Rectangle) : Z := Y (Max r) - Y (Min r).

(** [image.Rect]: the corners are put in order. *)
Definition Rect (x0 y0 x1 y1 : Z) : Rectangle :=
  let '(x0, x1) := if x0 >? x1 then (x1, x0) else (x0, x1) in
  let '(y0, y1) := if y0 >? y1 then (y1, y0) else (y0, y1) in
  {| Min := {| X := x0; Y := y0 |}; Max := {| X := x1; Y := y1 |} |}.

Definition ZR : Rectangle := Rect 0 0 0 0.

Definition Empty (r : Rectangle) : bool :=
  (X (Min r) >=? X (Max r)) || (Y (Min r) >=? Y (Max r)).

Definition Intersect (r s : Rectangle) : Rectangle :=
  let r' :=
    {| Min := {| X := Z.max (X (Min r)) (X (Min s));
                 Y := Z.max (Y (Min r)) (Y (Min s)) |};
       Max := {| X := Z.min (X (Max r)) (X (Max s));
                 Y := Z.min (Y (Max r)) (Y (Max s)) |} |} in
  if Empty r' then ZR else r'.

(** [r.Add(p)] and [p.Sub(q)]. *)
Definition Add (r : Rectangle) (p : Point) : Rectangle :=
  {| Min := {| X := X (Min r) + X p; Y := Y (Min r) + Y p |};
     Max := {| X := X (Max r) + X p; Y := Y (Max r) + Y p |} |}.

Definition Sub (p q : Point) : Point :=
  {| X := X p - X q; Y := Y p - Y q |}.

(** [p.In(r)]. *)
Definition In_rect (x y : Z) (r : Rectangle) : bool :=
  (X (Min r) <=? x) && (x <? X (Max r))
  && (Y (Min r) <=? y) && (y <? Y (Max r)).

(** What [Color.RGBA()] returns: four alpha-premultiplied channels, each
    in [0, 0xffff]. *)
Record Color := { R : Z; G : Z; B : Z; A : Z }.

Definition valid_color (c : Color) : Prop :=
  0 <= R c <= 0xffff /\ 0 <= G c <= 0xffff
  /\ 0 <= B c <= 0xffff /\ 0 <= A c <= 0xffff.

(** [color.Transparent]. *)
Definition Transparent : Color := {| R := 0; G := 0; B := 0; A := 0 |}.

(** An [image.Image]: its bounds and the colour [At(x, y).RGBA()]. *)
Record Image := { Bounds : Rectangle; At : Z -> Z -> Color }.

(** [&image.Uniform{c}], of unbounded extent. *)
Definition Uniform (c : Color) : Image :=
  {| Bounds := {| Min := {| X := -1000000000; Y := -1000000000 |};
                  Max := {| X := 1000000000; Y := 1000000000 |} |};
     At := fun _ _ => c |}.

(** An [*image.RGBA]: its rectangle and four bytes a pixel. *)
Record Pixel := { r8 : Z; g8 : Z; b8 : Z; a8 : Z }.

Record RGBA := { RGBA_Rect : Rectangle; Pix : Z -> Z -> Pixel }.

(** [image.NewRGBA(r)]: every byte zero. *)
Definition NewRGBA (r : Rectangle) : RGBA :=
  {| RGBA_Rect := r;
     Pix := fun _ _ => {| r8 := 0; g8 := 0; b8 := 0; a8 := 0 |} |}.

(** An [*image.RGBA] seen as an [image.Image]: [color.RGBA.RGBA()]
    widens a byte [v] to [v | v<<8]; outside the rectangle [At] is the
    zero colour. *)
Definition widen (v : Z) : Z := Z.lor v (Z.shiftl v 8).

Definition as_Image (m : RGBA) : Image :=
  {| Bounds := RGBA_Rect m;
     At := fun x y =>
       if In_rect x y (RGBA_Rect m)
       then let p := Pix m x y in
            {| R := widen (r8 p); G := widen (g8 p);
               B := widen (b8 p); A := widen (a8 p) |}
       else Transparent |}.

Inductive Op := Over | Src.

Definition uint32 (z : Z) : Z := z mod 2 ^ 32.
Definition uint8 (z : Z) : Z := z mod 2 ^ 8.

(** One channel of one pixel in [draw.Draw] without a mask, [m] being
    [1<<16 - 1]: [d] the byte in the destination, [s] the source channel
    and [sa] the source alpha. *)
Definition m : Z := 0xffff.

Definition blend (op : Op) (d s sa : Z) : Z :=
  match op with
  | Over =>
      let a := uint32 (uint32 (m - uint32 (uint32 (sa * m) / m)) * 0x101) in
      uint8 (Z.shiftr (uint32 (uint32 (d * a) + uint32 (s * m)) / m) 8)
  | Src => uint8 (Z.shiftr (uint32 (s * m) / m) 8)
  end.

(** [draw.Draw(dst, r, src, sp, op)]: [r] is clipped to the destination
    and to the source moved onto it, and every pixel of what is left is
    blended with the source pixel that lies over it. *)
Definition Draw (dst : RGBA) (r : Rectangle) (src : Image) (sp : Point)
    (op : Op) : RGBA :=
  let orig := Min r in
  let clipped :=
    Intersect (Intersect r (RGBA_Rect dst))
              (Add (Bounds src) (Sub orig sp)) in
  {| RGBA_Rect := RGBA_Rect dst;
     Pix := fun x y =>
       if In_rect x y clipped
       then let s := At src (x - X orig + X sp) (y - Y orig + Y sp) in
            let d := Pix dst x y in
            {| r8 := blend op (r8 d) (R s) (A s);
               g8 := blend op (g8 d) (G s) (A s);
               b8 := blend op (b8 d) (B s) (A s);
               a8 := blend op (a8 d) (A s) (A s) |}
       else Pix dst x y |}.

End GoImage.

(** ** Package [builder] *)

Module Builder.
Import GoStrings Parser ParserTypes Generator GeneratorJSON GoImage.

(** *** The environment

    A call that changes the file system is an [Action]; the history of
    the actions that succeeded so far is the state of a build. *)
Inductive Action :=
| MkdirAll (path : string) (perm : Z)
| WriteFile (path : string) (content : string) (perm : Z)
| Create (path : string)
| Encode (path : string) (img : Image).

(** The permission bits [0644] and [0755]. *)
Definition perm_0644 : Z := 420.
Definition perm_0755 : Z := 493.

(** A directory entry: [Name()] and [IsDir()]. *)
Record DirEntry := { Name : string; IsDir : bool }.

(** Everything outside the three packages: path arithmetic and the JSON
    string encoder of the standard library, the script templates of
    [generator] (scripts.go), what the operating system and the decoders
    answer, and the iteration orders Go picks. *)
Record Env := {
  (** [filepath.Clean] and [filepath.Dir] *)
  Clean : string -> string;
  Dir : string -> string;
  (** [strings.ToLower] *)
  ToLower : string -> string;
  (** the string encoder of [encoding/json] *)
  quote : string -> string;
  (** [generator.GenerateMainScript] *)
  GenerateMainScript : Variables -> string;
  (** [generator.GenerateLifecycleScripts()], its entries in the order in
      which [range] yields them *)
  GenerateLifecycleScripts : list (string * string);
  (** [os.Stat(path)] finds the file *)
  exists_file : string -> bool;
  (** [parser.CleanComposeFile(path)]; [inl] holds the error text *)
  CleanComposeFile : string -> string + string;
  (** [os.ReadDir(dir)] *)
  ReadDir : string -> string + list DirEntry;
  (** [imaging.Open(path)]: read and decode *)
  Open : string -> string + Image;
  (** [imaging.Resize(src, w, h, imaging.Lanczos)] *)
  Resize : Image -> Z -> Z -> Image;
  (** the error, if any, with which an action fails after a history *)
  os_error : list Action -> Action -> option string;
  (** the order in which [range files] yields the custom files *)
  range_files : gmap string string -> list (string * string);
  (** the order of [range replacements] in the [ReplaceVariables] call
      for a custom file *)
  replace_order : string -> RangeOrder;
  (** the same for a manifest entry *)
  manifest_order : string -> RangeOrder
}.

(** [filepath.Join]: the elements from the first non-empty one on,
    joined by a slash and cleaned; the empty path when all are empty. *)
Fixpoint skip_empty (elem : list string) : list string :=
  match elem with
  | [] => []
  | e :: rest => if String.eqb e "" then skip_empty rest else elem
  end.

Definition filepath_Join (env : Env) (elem : list string) : string :=
  match skip_empty elem with
  | [] => ""
  | l => Clean env (Join l "/")
  end.

(** *** A build step: a state and error monad over the history *)

Inductive Result (T : Type) :=
| Ok (value : T)
| Err (msg : string).
Arguments Ok {T} value.
Arguments Err {T} msg.

Definition IO (T : Type) : Type := list Action -> Result T * list Action.

Definition ret {T} (v : T) : IO T := fun h => (Ok v, h).

Definition bind {T U} (step : IO T) (k : T -> IO U) : IO U :=
  fun h =>
    match step h with
    | (Ok v, h') => k v h'
    | (Err msg, h') => (Err msg, h')
    end.

(** [if err := step; err != nil { return fmt.Errorf(prefix + ": %w", err) }] *)
Definition wrap {T} (prefix : string) (step : IO T) : IO T :=
  fun h =>
    match step h with
    | (Ok v, h') => (Ok v, h')
    | (Err msg, h') => (Err (prefix +:+ ": " +:+ msg), h')
    end.

Definition perform (env : Env) (a : Action) : IO unit :=
  fun h =>
    match os_error env h a with
    | None => (Ok tt, (h ++ [a])%list)
    | Some msg => (Err msg, h)
    end.

(** An answer of the environment that is either an error or a value. *)
Definition lift {T} (answer : string + T) : IO T :=
  fun h =>
    match answer with
    | inl msg => (Err msg, h)
    | inr v => (Ok v, h)
    end.

#[global] Instance IO_ret : MRet IO := @ret.
#[global] Instance IO_bind : MBind IO := fun _ _ k step => bind step k.

(** [for _, x := range l { if err := body(x); err != nil { return err } }] *)
Fixpoint for_each {T} (l : list T) (body : T -> IO unit) : IO unit :=
  match l with
  | [] => ret tt
  | x :: rest => body x ;; for_each rest body
  end.

(** *** builder.go *)

(** [Builder].  The flag [Verbose] only adds lines on standard output and
    is left out. *)
Record Builder := {
  InputDir : string;
  OutputDir : string;
  AppName : string;
  Compose : ComposeFile;
  Variables_of : Variables
}.

Definition GetAppDir (env : Env) (b : Builder) : string :=
  filepath_Join env [OutputDir b; AppName b].

(** What [parseCompose] stores in the builder once the file is parsed. *)
Definition parseCompose (inputDir outputDir : string)
    (compose : ComposeFile) : Builder :=
  let vars := ExtractVariables compose in
  {| InputDir := inputDir;
     OutputDir := outputDir;
     AppName := GetManifestAppname (Manifest (XFnpackOf compose)) vars;
     Compose := compose;
     Variables_of := vars |}.

(** *** writer.go *)

Section Writer.
Variable env : Env.
Variable b : Builder.

Definition files : gmap string string := Files (XFnpackOf (Compose b)).

(** [hasFile]. *)
Definition hasFile (files : gmap string string) (path : string) : bool :=
  bool_decide (is_Some (files !! path)).

Definition WriteManifest : IO unit :=
  let content :=
    GenerateManifest (manifest_order env)
      (Manifest (XFnpackOf (Compose b))) (Variables_of b) in
  let manifestPath := filepath_Join env [GetAppDir env b; "manifest"] in
  wrap "failed to write manifest"
    (perform env (WriteFile manifestPath content perm_0644)).

Definition WriteConfigs : IO unit :=
  (if negb (hasFile files "config/privilege")
   then
     let privilegeContent := GeneratePrivilege (quote env) (Variables_of b) in
     let privilegePath :=
       filepath_Join env [GetAppDir env b; "config"; "privilege"] in
     wrap "failed to write privilege config"
       (perform env (WriteFile privilegePath privilegeContent perm_0644))
   else ret tt);;
  (if negb (hasFile files "config/resource")
   then
     let resourceContent := GenerateResource (quote env) (Variables_of b) in
     let resourcePath :=
       filepath_Join env [GetAppDir env b; "config"; "resource"] in
     wrap "failed to write resource config"
       (perform env (WriteFile resourcePath resourceContent perm_0644))
   else ret tt).

Definition WriteScript : IO unit :=
  (if negb (hasFile files "cmd/main")
   then
     let content := GenerateMainScript env (Variables_of b) in
     let scriptPath := filepath_Join env [GetAppDir env b; "cmd"; "main"] in
     wrap "failed to write main script"
       (perform env (WriteFile scriptPath content perm_0755))
   else ret tt);;
  for_each (GenerateLifecycleScripts env)
    (fun script =>
       let name := fst script in
       let content := snd script in
       let filePath := "cmd/" +:+ name in
       if negb (hasFile files filePath)
       then
         let scriptPath := filepath_Join env [GetAppDir env b; "cmd"; name] in
         wrap ("failed to write " +:+ name +:+ " script")
           (perform env (WriteFile scriptPath content perm_0755))
       else ret tt).

Definition WriteUIConfig : IO unit :=
  if negb (hasFile files "app/ui/config")
  then
    let content := GenerateDefaultUIConfig (quote env) (Variables_of b) in
    let configPath :=
      filepath_Join env [GetAppDir env b; "app"; "ui"; "config"] in
    wrap "failed to write UI config"
      (perform env (WriteFile configPath content perm_0644))
  else ret tt.

Definition CopyCompose : IO unit :=
  let composePath :=
    let p := filepath_Join env [InputDir b; "compose.yaml"] in
    if exists_file env p then p
    else filepath_Join env [InputDir b; "docker-compose.yaml"] in
  cleanContent ← wrap "failed to clean compose file"
                    (lift (CleanComposeFile env composePath));
  let destPath :=
    filepath_Join env [GetAppDir env b; "app"; "docker"; "docker-compose.yaml"] in
  wrap "failed to write compose file"
    (perform env (WriteFile destPath cleanContent perm_0644)).

Definition WriteLicense : IO unit :=
  let licensePath := filepath_Join env [GetAppDir env b; "LICENSE"] in
  wrap "failed to write LICENSE"
    (perform env (WriteFile licensePath "" perm_0644)).

Definition WriteCustomFiles : IO unit :=
  for_each (range_files env files)
    (fun entry =>
       let filePath := fst entry in
       let content :=
         ReplaceVariables (replace_order env filePath) (snd entry)
           (Variables_of b) in
       let fullPath := filepath_Join env [GetAppDir env b; filePath] in
       let parentDir := Dir env fullPath in
       wrap ("failed to create directory for " +:+ filePath)
         (perform env (MkdirAll parentDir perm_0755));;
       let perm := if HasPrefix filePath "cmd/" then perm_0755 else perm_0644 in
       wrap ("failed to write file " +:+ filePath)
         (perform env (WriteFile fullPath content perm))).

(** [writeAllFiles]. *)
Definition writeAllFiles : IO unit :=
  WriteManifest;;
  WriteCustomFiles;;
  WriteConfigs;;
  WriteScript;;
  WriteUIConfig;;
  CopyCompose;;
  WriteLicense.

End Writer.

(** *** icon.go *)

(** [squareImage]. *)
Definition squareImage (src : Image) : Image :=
  let bounds := Bounds src in
  let srcWidth := Dx bounds in
  let srcHeight := Dy bounds in
  if srcWidth =? srcHeight then src
  else
    let size := if srcHeight >? srcWidth then srcHeight else srcWidth in
    let dst := NewRGBA (Rect 0 0 size size) in
    let dst :=
      Draw dst (RGBA_Rect dst) (Uniform Transparent) {| X := 0; Y := 0 |} Src in
    let offsetX := (size - srcWidth) ÷ 2 in
    let offsetY := (size - srcHeight) ÷ 2 in
    let dstRect :=
      Rect offsetX offsetY (offsetX + srcWidth) (offsetY + srcHeight) in
    as_Image (Draw dst dstRect src (Min bounds) Over).

Section IconHandler.
Variable env : Env.
Variable b : Builder.

(** [FindIcon]. *)
Definition FindIcon : IO string :=
  entries ← wrap "failed to read input directory"
              (lift (ReadDir env (InputDir b)));
  match List.find (fun entry =>
                     negb (IsDir entry)
                     && HasSuffix (ToLower env (Name entry)) ".png")
                  entries with
  | Some entry => ret (filepath_Join env [InputDir b; Name entry])
  | None => lift (inl ("no .png file found in " +:+ InputDir b))
  end.

(** [ResizeIcon]. *)
Definition ResizeIcon (src : Image) (width height : Z) : Image :=
  Resize env src width height.

(** [saveIcon].  The result of the deferred [outFile.Close()] is
    discarded by the program and has no part in the outcome. *)
Definition saveIcon (img : Image) (destPath : string) : IO unit :=
  let parentDir := Dir env destPath in
  wrap "failed to create directory"
    (perform env (MkdirAll parentDir perm_0755));;
  wrap "failed to create file" (perform env (Create destPath));;
  wrap "failed to encode PNG" (perform env (Encode destPath img)).

(** The table [icons] of [CopyIcons]. *)
Definition icons : list (Z * Z * string) :=
  let appDir := GetAppDir env b in
  [(64, 64, filepath_Join env [appDir; "ICON.PNG"]);
   (256, 256, filepath_Join env [appDir; "ICON_256.PNG"]);
   (64, 64, filepath_Join env [appDir; "app"; "ui"; "images"; "icon-64.png"]);
   (256, 256, filepath_Join env [appDir; "app"; "ui"; "images"; "icon-256.png"])].

(** [CopyIcons]. *)
Definition CopyIcons (srcImg : Image) : IO unit :=
  for_each icons
    (fun icon =>
       let '(width, height, destPath) := icon in
       let resized := ResizeIcon srcImg width height in
       wrap ("failed to save icon " +:+ destPath)
         (saveIcon resized destPath)).

(** [ProcessIcons]. *)
Definition ProcessIcons : IO unit :=
  fun h =>
    match FindIcon h with
    | (Err _, h') => (Ok tt, h')
    | (Ok iconPath, h') =>
        (srcImg ← wrap "failed to open icon" (lift (Open env iconPath));
         let srcImg := squareImage srcImg in
         CopyIcons srcImg) h'
    end.

(** [CreateDirectories]. *)
Definition CreateDirectories : IO unit :=
  let appDir := filepath_Join env [OutputDir b; AppName b] in
  let dirs :=
    [filepath_Join env [appDir; "app"; "docker"];
     filepath_Join env [appDir; "app"; "ui"; "images"];
     filepath_Join env [appDir; "cmd"];
     filepath_Join env [appDir; "config"];
     filepath_Join env [appDir; "wizard"]] in
  for_each dirs
    (fun dir =>
       wrap ("failed to create directory " +:+ dir)
         (perform env (MkdirAll dir perm_0755))).

(** [Build] from its second step on, [b] being the builder that
    [parseCompose] has filled in. *)
Definition Build : IO unit :=
  wrap "failed to create directories" CreateDirectories;;
  wrap "failed to write files" (writeAllFiles env b);;
  wrap "failed to process icons" ProcessIcons.

End IconHandler.


End Builder.

(** ** Package [parser]: the custom files and the manifest lookup *)

Module ParserFiles.
Import GoStrings Parser ParserTypes.

(** [extractCustomFiles], [entries] being the entries of the raw
    [x-fnpack] object in the order in which [range xfnpack] yields them.
    A value that is not a string fails the type assertion and is passed
    over. *)
Definition extractCustomFiles_range (entries : list (string * Value))
    : gmap string string :=
  fold_left
    (fun files kv =>
       if String.eqb (fst kv) "manifest" then files
       else match snd kv with
            | VString strValue => <[fst kv := strValue]> files
            | _ => files
            end)
    entries ∅.

Definition extractCustomFiles (xfnpack : gmap string Value)
    : gmap string string :=
  extractCustomFiles_range (map_to_list xfnpack).

(** [GetManifestValue].  A nil manifest is the empty map. *)
Definition GetManifestValue (manifest : gmap string Value)
    (key defaultValue : string) : string :=
  match manifest !! key with
  | Some value =>
      match value with
      | VString v => v
      | VInt n => DecimalString.NilZero.string_of_int (Z.to_int n)
      | VFloat text => text
      | VBool v => if v then "yes" else "no"
      | VOther text => text
      end
  | None => defaultValue
  end.

End ParserFiles.

(** ** Package [generator]: replacement inside nested maps *)

Module ReplacerMap.
Import GoStrings Parser ParserTypes Generator.

(** A value of a [map[string]interface{}] as [ReplaceVariablesInMap]
    tells them apart: a string, a nested map, anything else.  A map is
    given by its entries, with distinct keys, in the order in which
    [range] yields them. *)
#[local] Set Warnings "-register-all".
Inductive Node :=
| NString (s : string)
| NMap (entries : list (string * Node))
| NOther (v : Value).

(** [ReplaceVariablesInMap].  [sched path] is the iteration order of the
    [ReplaceVariables] call for the string found under the keys [path],
    innermost key first. *)
Fixpoint replace_node (sched : list string -> RangeOrder) (vars : Variables)
    (path : list string) (value : Node) : Node :=
  match value with
  | NString v => NString (ReplaceVariables (sched path) v vars)
  | NMap entries =>
      NMap (map (fun kv => (fst kv, replace_node sched vars (fst kv :: path) (snd kv)))
                entries)
  | NOther v => NOther v
  end.

Definition ReplaceVariablesInMap (sched : list string -> RangeOrder)
    (data : list (string * Node)) (vars : Variables) : list (string * Node) :=
  map (fun kv => (fst kv, replace_node sched vars [fst kv] (snd kv))) data.

End ReplacerMap.

(** ** Package [builder]: fnpack.go *)

Module Fnpack.
Import GoStrings Parser ParserTypes Generator GeneratorJSON GoImage Builder.

(** What the operating system answers to the runner: [filepath.Abs],
    whether [os.Stat] finds a path, [exec.LookPath], [filepath.Glob],
    and the error, if any, of running a command with its arguments in a
    working directory. *)
Record FnpackEnv := {
  Abs : string -> string + string;
  Stat_ok : string -> bool;
  LookPath : string -> string + string;
  Glob : string -> string + list string;
  Run : string -> list string -> string -> option string
}.

(** [for _, path := range paths { if v, ok := try(path); ok { return v } }] *)
Fixpoint first_found (try : string -> option string) (paths : list string)
    : option string :=
  match paths with
  | [] => None
  | path :: rest =>
      match try path with
      | Some v => Some v
      | None => first_found try rest
      end
  end.

Definition commonPaths : list string :=
  ["../bin/fnpack"; "bin/fnpack"; "../../bin/fnpack"].

Definition systemPaths : list string := ["/usr/local/bin/fnpack"].

(** The body of the first loop of [findFnpack]. *)
Definition try_local (fenv : FnpackEnv) (path : string) : option string :=
  match Abs fenv path with
  | inr absPath => if Stat_ok fenv absPath then Some absPath else None
  | inl _ => None
  end.

Definition try_system (fenv : FnpackEnv) (path : string) : option string :=
  if Stat_ok fenv path then Some path else None.

(** [findFnpack]. *)
Definition findFnpack (fenv : FnpackEnv) : Result string :=
  match first_found (try_local fenv) commonPaths with
  | Some absPath => Ok absPath
  | None =>
      match LookPath fenv "fnpack" with
      | inr fnpackPath => Ok fnpackPath
      | inl _ =>
          match first_found (try_system fenv) systemPaths with
          | Some path => Ok path
          | None =>
              Err "fnpack not found in PATH or common locations (bin/fnpack)"
          end
      end
  end.

(** [findFpkFile]. *)
Definition findFpkFile (env : Env) (fenv : FnpackEnv) (b : Builder)
    : Result string :=
  let appName := AppName b in
  let appPattern := filepath_Join env [OutputDir b; appName +:+ "*.fpk"] in
  match Glob fenv appPattern with
  | inl msg => Err ("failed to search for fpk file: " +:+ msg)
  | inr (first :: _) => Ok first
  | inr [] =>
      let pattern := filepath_Join env [OutputDir b; "*.fpk"] in
      match Glob fenv pattern with
      | inl msg => Err ("failed to search for fpk file: " +:+ msg)
      | inr [] => Err ("no .fpk file found in " +:+ OutputDir b)
      | inr (first :: _) => Ok first
      end
  end.

(** [RunFnpack]. *)
Definition RunFnpack (env : Env) (fenv : FnpackEnv) (b : Builder)
    : Result string :=
  let appDir := GetAppDir env b in
  match Abs fenv appDir with
  | inl msg => Err ("failed to get absolute path: " +:+ msg)
  | inr absAppDir =>
      match findFnpack fenv with
      | Err msg => Err msg
      | Ok fnpackPath =>
          match Abs fenv (OutputDir b) with
          | inl msg => Err ("failed to get absolute output path: " +:+ msg)
          | inr absOutputDir =>
              match Run fenv fnpackPath ["build"; absAppDir] absOutputDir with
              | Some msg => Err ("fnpack build failed: " +:+ msg)
              | None => findFpkFile env fenv b
              end
          end
      end
  end.

(** [BuildWithFnpack], after [parseCompose]. *)
Definition BuildWithFnpack (env : Env) (fenv : FnpackEnv) (b : Builder)
    : list Action -> Result string * list Action :=
  fun h =>
    match Build env b h with
    | (Err msg, h') => (Err msg, h')
    | (Ok _, h') => (RunFnpack env fenv b, h')
    end.

End Fnpack.

(** * Vocabulary of the statements *)

(** ** The parser *)

Module Wording.
Import GoStrings Parser.

(** [s] has no byte [c]. *)
Definition free_of (c : ascii) (s : string) : Prop := Contains s c = false.

(** The wording "strip the text after the last slash": the string up to,
    and without, its last slash; the whole string when it has none. *)
Definition strip_after_last_slash (s : string) : string :=
  let i := LastIndex s "/" in
  if i =? -1 then s else slice_to s (Z.to_nat i).

(** The host-port rule as worded, on the text left by
    [strip_after_last_slash]. *)
Definition host_port_as_worded (portMapping : string) : string :=
  match Split (strip_after_last_slash portMapping) ":" with
  | [p0] => p0
  | [p0; _] => p0
  | [_; p1; _] => p1
  | _ => ""
  end.

(** The switch of [extractHostPort] on the colon-separated tokens. *)
Definition host_port_of (tokens : list string) : string :=
  match tokens with
  | [p0] => p0
  | [p0; _] => p0
  | [_; p1; _] => p1
  | _ => ""
  end.

(** [base] is [image] without its trailing tag: either [image] ends in a
    colon and a tag that has neither a colon nor a slash, which are cut
    off, or [image] has no such ending and is kept whole. *)
Definition tag_stripped (image base : string) : Prop :=
  (exists tag, image = base +:+ ":" +:+ tag
               /\ free_of ":" tag /\ free_of "/" tag)
  \/ (base = image
      /\ (free_of ":" image
          \/ exists pre rest, image = pre +:+ ":" +:+ rest
                              /\ free_of ":" rest /\ Contains rest "/" = true)).

(** Organisation and name read off the slash-separated segments. *)
Definition org_and_name (segs : list string) (r : string * string) : Prop :=
  (exists s, segs = [s] /\ r = (s, s))
  \/ (exists s0 s1, segs = [s0; s1] /\ r = (s0, s1))
  \/ (exists front mid s0 s1, segs = front :: mid ++ [s0; s1] /\ r = (s0, s1)).

End Wording.

(** ** The manifest *)

Module ManifestWording.
Import GoStrings Generator.

(** The wording "the key padded or truncated to a 16-character column":
    the first sixteen bytes of the key followed by sixteen spaces. *)
Definition fit16 (key : string) : string :=
  slice_to (key +:+ spaces 16) 16.

(** A manifest line as worded: the sixteen-character column, then a
    space more when the key has sixteen bytes or more, then the equals
    sign and the value. *)
Definition line_as_worded (key value : string) : string :=
  fit16 key +:+ (if len key <? 16 then "= " else " = ") +:+ value.

(** [key] has a non-empty value in [result]. *)
Definition nonempty_at (result : gmap string string) (key : string) : Prop :=
  exists value, result !! key = Some value /\ value <> "".

(** The three placeholders. *)
Definition placeholders : list string :=
  ["${SERVICE_NAME}"; "${CONTAINER_NAME}"; "${FIRST_PORT}"].

End ManifestWording.

(** ** Build steps and their actions *)

Module BuilderWording.
Import GoStrings Parser ParserTypes Generator GeneratorJSON GoImage Builder.

(** The actions of a list, one after the other, up to the first that
    fails. *)
Definition run_all (env : Env) (acts : list Action) : IO unit :=
  for_each acts (perform env).

(** Every action of the list succeeds when they are performed in order
    after the history [h]. *)
Definition all_succeed (env : Env) (h : list Action) (acts : list Action)
    : Prop :=
  forall i a, acts !! i = Some a -> os_error env (h ++ take i acts) a = None.

(** The action at index [i] is the first of the list to fail. *)
Definition first_failure (env : Env) (h : list Action) (acts : list Action)
    (i : nat) : Prop :=
  all_succeed env h (take i acts)
  /\ exists a, acts !! i = Some a
               /\ is_Some (os_error env (h ++ take i acts) a).

(** Two outcomes with the same history that are both a success or both
    an error. *)
Definition same_outcome (r1 r2 : Result unit * list Action) : Prop :=
  snd r1 = snd r2
  /\ match fst r1, fst r2 with
     | Ok _, Ok _ => True
     | Err _, Err _ => True
     | _, _ => False
     end.

(** The step does what performing the actions does, whatever the
    history: it goes through them in order and stops with an error at
    the first that fails. *)
Definition performs (env : Env) (step : IO unit) (acts : list Action) : Prop :=
  forall h, same_outcome (step h) (run_all env acts h).

(** The actions of [saveIcon] and of [CopyIcons]. *)
Definition save_actions (env : Env) (img : Image) (destPath : string)
    : list Action :=
  [MkdirAll (Dir env destPath) perm_0755; Create destPath; Encode destPath img].

Definition icon_actions (env : Env) (b : Builder) (srcImg : Image)
    : list Action :=
  flat_map (fun icon : Z * Z * string =>
              let '(width, height, destPath) := icon in
              save_actions env (Resize env srcImg width height) destPath)
           (icons env b).

(** [entry] is a file of the input directory named like a PNG image. *)
Definition is_png (env : Env) (entry : DirEntry) : bool :=
  negb (IsDir entry) && HasSuffix (ToLower env (Name entry)) ".png".

End BuilderWording.

(** ** The writer *)

Module WriterWording.
Import GoStrings Parser ParserTypes Generator GeneratorJSON GoImage.
Import Builder BuilderWording.










End WriterWording.

(** ** The icon names *)

Module IconWording.
Import GoStrings.



End IconWording.

(** ** The squared image *)

Module ImageWording.
Import GoImage.

(** A colour after its passage through the eight bits a channel has in
    an [*image.RGBA]: the high byte of each channel, widened again. *)
Definition through_8_bits (c : Color) : Color :=
  {| R := widen (R c / 256); G := widen (G c / 256);
     B := widen (B c / 256); A := widen (A c / 256) |}.

(** The square canvas of side [size] with its corner at the origin. *)
Definition canvas (size : Z) : Rectangle :=
  {| Min := {| X := 0; Y := 0 |}; Max := {| X := size; Y := size |} |}.

End ImageWording.

(** ** Inputs of the examples *)

Module Examples.
Import GoStrings Parser ParserTypes Generator GeneratorJSON GoImage Builder.

(** An environment for the examples: paths are kept as they are
    written, every action succeeds, the compose file is found and its
    cleaned copy is [services: {}], and the maps are ranged over in
    their own enumeration.  The directory listing, the decoder and the
    lifecycle scripts are given. *)
Definition example_env (listing : string + list DirEntry)
    (decoded : string + Image) (lifecycle : list (string * string)) : Env :=
  {| Clean := fun path => path;
     Dir := fun path => path +:+ "/..";
     ToLower := fun s => s;
     quote := fun s => s;
     GenerateMainScript := fun _ => "#!/bin/bash";
     GenerateLifecycleScripts := lifecycle;
     exists_file := fun _ => true;
     CleanComposeFile := fun _ => inr "services: {}";
     ReadDir := fun _ => listing;
     Open := fun _ => decoded;
     Resize := fun img _ _ => img;
     os_error := fun _ _ => None;
     range_files := map_to_list;
     replace_order := fun _ => SCF;
     manifest_order := fun _ => SCF |}.

(** A compose file with one service and, in its extension block, a
    privilege configuration of the user's own. *)
Definition example_compose : ComposeFile :=
  {| XFnpackOf :=
       {| Manifest := {[ "appname" := VString "demo" ]};
          Files := {[ "config/privilege" := "run as ${SERVICE_NAME}" ]} |};
     Services := {[ "web" := {| Parser.Image := "nginx"; ContainerName := "";
                                Ports := ["8080:80"] |} ]} |}.

Definition example_builder : Builder :=
  parseCompose "in" "dist" example_compose.

(** A red image, two pixels wide and one high. *)
Definition example_image : Image :=
  {| Bounds := Rect 0 0 2 1;
     At := fun _ _ => {| R := 0xffff; G := 0; B := 0; A := 0xffff |} |}.

End Examples.

(** ** A custom file under another spelling of a default path *)

Module AliasExample.
Import GoStrings Parser ParserTypes Generator GeneratorJSON GoImage Builder.





End AliasExample.

(** ** The manifest before the manifest object is applied *)

Module ManifestStages.
Import GoStrings Parser ParserTypes Generator.

(** The map [result] of [GenerateManifest] after the static defaults and
    the defaults taken from the variables, before the loop over the
    manifest object. *)
Definition derived_defaults (vars : Variables) : gmap string string :=
  let result := assign_all (map_to_list ManifestDefaults) ∅ in
  let result :=
    if negb (String.eqb (ServiceName vars) "")
    then <["desktop_applaunchname" := ServiceName vars +:+ ".Application"]>
           (<["display_name" := ServiceName vars]>
              (<["appname" := ServiceName vars]> result))
    else result in
  let result :=
    if negb (String.eqb (ImageOrg vars) "")
    then <["distributor" := ImageOrg vars]>
           (<["maintainer" := ImageOrg vars]> result)
    else result in
  let result :=
    if negb (String.eqb (ImageName vars) "")
    then <["desc" := ImageName vars]> result
    else if negb (String.eqb (ServiceName vars) "")
         then <["desc" := ServiceName vars]> result
         else result in
  if negb (String.eqb (FirstPort vars) "")
  then <["service_port" := FirstPort vars]> result
  else result.

(** [s] when it is not empty. *)
Definition unless_empty (s : string) : option string :=
  if String.eqb s "" then None else Some s.

End ManifestStages.

(** ** The resolution of the manifest *)

Module ManifestResolution.
Import GoStrings Parser ParserTypes Generator ManifestStages.

(** The value a key has by default: the static defaults, then the
    defaults taken from the variables. *)
Definition default_table (vars : Variables) : list (string * option string) :=
  [("arch", Some "x86_64"); ("source", Some "thirdparty");
   ("desktop_uidir", Some "ui"); ("version", Some "1.0.0");
   ("appname", unless_empty (ServiceName vars));
   ("display_name", unless_empty (ServiceName vars));
   ("maintainer", unless_empty (ImageOrg vars));
   ("distributor", unless_empty (ImageOrg vars));
   ("desc", match unless_empty (ImageName vars) with
            | Some name => Some name
            | None => unless_empty (ServiceName vars)
            end);
   ("service_port", unless_empty (FirstPort vars))].

Definition default_value (vars : Variables) (key : string) : option string :=
  match List.find (fun kv => String.eqb (fst kv) key) (default_table vars) with
  | Some kv => snd kv
  | None => None
  end.

(** The keys of the manifest in the order of their lines. *)
Definition emitted_keys (result : gmap string string) : list string :=
  ordered_keys result ++ remaining_keys ((map_to_list result).*1) result.

(** Every byte of the string is an ASCII character. *)
Fixpoint is_ascii (s : string) : bool :=
  match s with
  | EmptyString => true
  | String c r => (byte_val c <? 0x80) && is_ascii r
  end.

End ManifestResolution.

(** * Properties *)

(** ** Facts about the string functions *)

Section StringFacts.
Import GoStrings Wording.

Lemma append_nil_r (s : string) : s +:+ "" = s.
Proof. induction s as [|c s IH]; simpl; [done | by rewrite IH]. Qed.

Lemma append_assoc (a b c : string) : (a +:+ b) +:+ c = a +:+ (b +:+ c).
Proof. induction a as [|x a IH]; simpl; [done | by rewrite IH]. Qed.

Lemma Split_not_nil (s : string) (sep : ascii) : Split s sep <> [].
Proof.
  destruct s as [|c r]; simpl; [done |].
  destruct (Ascii.eqb c sep); [done |].
  by destruct (Split r sep).
Qed.

(** Joining the pieces with the separator gives the string back. *)
Lemma Join_Split (s : string) (sep : ascii) :
  Join (Split s sep) (String sep "") = s.
Proof.
  unfold Join. induction s as [|c r IH]; simpl; [done |].
  destruct (Ascii.eqb_spec c sep) as [->|Hne].
  - pose proof (Split_not_nil r sep) as Hnn.
    destruct (Split r sep) as [|p ps] eqn:E; [done |].
    simpl in *. by rewrite IH.
  - pose proof (Split_not_nil r sep) as Hnn.
    destruct (Split r sep) as [|p ps] eqn:E; [done |].
    simpl in *. destruct ps; simpl in *; by rewrite <- IH.
Qed.

(** No piece holds the separator. *)
Lemma Split_free (s : string) (sep : ascii) :
  Forall (free_of sep) (Split s sep).
Proof.
  unfold free_of. induction s as [|c r IH]; simpl.
  - by constructor.
  - destruct (Ascii.eqb c sep) eqn:E.
    + by constructor.
    + destruct (Split r sep) as [|p ps]; [constructor; [simpl; by rewrite E | done] |].
      inversion IH; subst. constructor; [simpl; by rewrite E | done].
Qed.

Lemma Split_free_of (s : string) (sep : ascii) :
  free_of sep s -> Split s sep = [s].
Proof.
  unfold free_of. induction s as [|c r IH]; simpl; [done |].
  destruct (Ascii.eqb c sep); [done |]. intros H. by rewrite (IH H).
Qed.

Lemma Split_app_sep (p rest : string) (sep : ascii) :
  free_of sep p ->
  Split (p +:+ String sep rest) sep = p :: Split rest sep.
Proof.
  unfold free_of. induction p as [|c r IH]; simpl.
  - intros _. by rewrite Ascii.eqb_refl.
  - destruct (Ascii.eqb c sep); [done |]. intros H. by rewrite (IH H).
Qed.

(** The pieces are the only list of separator-free strings that joins
    to the string. *)
Lemma Split_Join (l : list string) (sep : ascii) :
  l <> [] -> Forall (free_of sep) l ->
  Split (Join l (String sep "")) sep = l.
Proof.
  unfold Join. induction l as [|p ps IH]; [done |]. intros _ HF.
  inversion HF as [|? ? Hp Hps]; subst.
  destruct ps as [|q qs].
  - simpl. by apply Split_free_of.
  - change (String.concat (String sep "") (p :: q :: qs))
      with (p +:+ String sep (String.concat (String sep "") (q :: qs))).
    rewrite Split_app_sep by done. f_equal. by apply IH.
Qed.

(** The first piece is the text before the first separator. *)
Lemma Split_head (s : string) (sep : ascii) :
  let h := hd "" (Split s sep) in
  free_of sep h /\ (s = h \/ exists rest, s = h +:+ String sep rest).
Proof.
  simpl. pose proof (Split_free s sep) as HF.
  pose proof (Join_Split s sep) as HJ.
  pose proof (Split_not_nil s sep) as Hnn.
  destruct (Split s sep) as [|p ps]; [done |].
  apply Forall_cons in HF as [Hp _]. split; [done |]. simpl.
  unfold Join in HJ. simpl in HJ.
  destruct ps as [|q qs]; [by left | right].
  eexists. symmetry. exact HJ.
Qed.

Lemma LastIndex_ge (s : string) (c : ascii) : -1 <= LastIndex s c.
Proof.
  induction s as [|a r IH]; simpl; [lia |].
  destruct (0 <=? LastIndex r c) eqn:E; [lia |].
  destruct (Ascii.eqb a c); lia.
Qed.

Lemma LastIndex_none (s : string) (c : ascii) :
  LastIndex s c = -1 <-> free_of c s.
Proof.
  unfold free_of. induction s as [|a r IH]; simpl; [done |].
  pose proof (LastIndex_ge r c).
  destruct (0 <=? LastIndex r c) eqn:E.
  - apply Z.leb_le in E. split; [lia |].
    destruct (Ascii.eqb a c); [done |]. intros H'. apply IH in H'. lia.
  - apply Z.leb_gt in E. destruct (Ascii.eqb a c); [done |].
    rewrite <- IH. lia.
Qed.

(** At a non-negative [LastIndex] the string splits into the text before
    the byte, the byte, and a rest that is free of it. *)
Lemma LastIndex_some (s : string) (c : ascii) :
  0 <= LastIndex s c ->
  exists rest,
    s = slice_to s (Z.to_nat (LastIndex s c)) +:+ String c rest
    /\ slice_from s (Z.to_nat (LastIndex s c)) = String c rest
    /\ free_of c rest.
Proof.
  induction s as [|a r IH]; simpl; [lia |].
  pose proof (LastIndex_ge r c).
  destruct (0 <=? LastIndex r c) eqn:E.
  - apply Z.leb_le in E. intros _. destruct (IH E) as (rest & H1 & H2 & H3).
    exists rest. replace (Z.to_nat (LastIndex r c + 1)) with (S (Z.to_nat (LastIndex r c))) by lia.
    simpl. split; [by rewrite <- H1 | done].
  - apply Z.leb_gt in E. destruct (Ascii.eqb_spec a c) as [->|Hne]; [|lia].
    intros _. exists r. simpl. split; [done |]. split; [done |].
    apply LastIndex_none. lia.
Qed.

Lemma free_of_app (c : ascii) (s t : string) :
  free_of c (s +:+ t) <-> free_of c s /\ free_of c t.
Proof.
  unfold free_of. induction s as [|a r IH]; simpl; [tauto |].
  destruct (Ascii.eqb a c); [| exact IH].
  split; [done | by intros [? _]].
Qed.

End StringFacts.

(** ** The parser: host port and image reference *)

Section HostPort.
Import GoStrings Parser Wording.

(** C1, as the code has it: [extractHostPort] is defined on every string;
    it keeps the text [head] in front of the first slash (all of the
    string when it has no slash), cuts [head] at its colons into tokens,
    and answers the sole token, the first of two, the second of three,
    and the empty string for any other number of tokens. *)
Theorem extractHostPort_first_slash (portMapping : string) :
  exists head tokens,
    free_of "/" head
    /\ (portMapping = head \/ exists rest, portMapping = head +:+ "/" +:+ rest)
    /\ tokens <> []
    /\ Forall (free_of ":") tokens
    /\ Join tokens ":" = head
    /\ extractHostPort portMapping = host_port_of tokens
    /\ extractHostPort "127.0.0.1:9000:9000/udp" = "9000"
    /\ extractHostPort "3000" = "3000".
Proof.
  exists (hd "" (Split portMapping "/")), (Split (hd "" (Split portMapping "/")) ":").
  destruct (Split_head portMapping "/") as [Hfree Hshape].
  repeat split.
  - exact Hfree.
  - exact Hshape.
  - apply Split_not_nil.
  - apply Split_free.
  - apply Join_Split.
Qed.

(** C1, as worded, fails: a mapping with two slashes is cut at the first
    one by the code and at the last one by the wording. *)
Lemma extractHostPort_not_last_slash :
  extractHostPort "80/x:90/tcp" = "80"
  /\ host_port_as_worded "80/x:90/tcp" = "80/x"
  /\ extractHostPort "80/x:90/tcp" <> host_port_as_worded "80/x:90/tcp".
Proof. repeat split. vm_compute. discriminate. Qed.

End HostPort.

Section ImageInfo.
Import GoStrings Parser Wording.

Lemma nth_last_two (front : list string) (a b d : string) :
  nth (length (front ++ [a; b]) - 2)%nat (front ++ [a; b]) d = a
  /\ nth (length (front ++ [a; b]) - 1)%nat (front ++ [a; b]) d = b.
Proof.
  rewrite length_app. cbn [length].
  replace (length front + 2 - 2)%nat with (length front + 0)%nat by lia.
  replace (length front + 2 - 1)%nat with (length front + 1)%nat by lia.
  by rewrite !app_nth2_plus.
Qed.

Lemma org_and_name_of_parts (parts : list string) :
  parts <> [] ->
  org_and_name parts
    match parts with
    | [p0] => (p0, p0)
    | [p0; p1] => (p0, p1)
    | _ => (nth (length parts - 2)%nat parts "",
            nth (length parts - 1)%nat parts "")
    end.
Proof.
  intros Hnn. destruct parts as [|p0 [|p1 [|p2 rest]]]; [done | | |].
  - left. by eexists.
  - right; left. by do 2 eexists.
  - right; right. lazy beta iota.
    destruct (exists_last (l := p1 :: p2 :: rest)) as (l1 & z & E1); [done |].
    destruct l1 as [|y l1]; [simplify_eq/= |].
    destruct (exists_last (l := y :: l1)) as (l2 & w & E2); [done |].
    assert (E : p0 :: p1 :: p2 :: rest = (p0 :: l2) ++ [w; z]).
    { rewrite E1, E2, <- app_assoc. reflexivity. }
    rewrite E. destruct (nth_last_two (p0 :: l2) w z "") as [-> ->].
    by exists p0, l2, w, z.
Qed.

(** The text [extractImageInfo] splits: the image without its tag. *)
Lemma strip_tag_spec (image : string) :
  let idx := LastIndex image ":" in
  tag_stripped image
    (if negb (idx =? -1)
     then if negb (Contains (slice_from image (Z.to_nat idx)) "/")
          then slice_to image (Z.to_nat idx)
          else image
     else image).
Proof.
  simpl. pose proof (LastIndex_ge image ":") as Hge.
  destruct (LastIndex image ":" =? -1) eqn:E; simpl.
  - apply Z.eqb_eq in E. right. split; [done | left].
    by apply LastIndex_none.
  - apply Z.eqb_neq in E.
    destruct (LastIndex_some image ":") as (rest & H1 & H2 & H3); [lia |].
    rewrite H2. simpl.
    destruct (Contains rest "/") eqn:Hs; simpl.
    + right. split; [done | right]. by eexists _, rest.
    + left. exists rest. by split.
Qed.

(** C2: the empty reference gives two empty strings; any other
    reference is first relieved of a trailing tag (a final colon with
    no slash after it, and what follows it), then cut at its slashes,
    and gives (segment, segment) for one segment, (first, second) for
    two, and (second-to-last, last) for three or more. *)
Theorem extractImageInfo_spec (image : string) :
  (image = "" /\ extractImageInfo image = ("", ""))
  \/ (image <> ""
      /\ exists base segs,
           tag_stripped image base
           /\ segs <> []
           /\ Forall (free_of "/") segs
           /\ Join segs "/" = base
           /\ org_and_name segs (extractImageInfo image)).
Proof.
  destruct (String.eqb_spec image "") as [->|Hne]; [by left | right].
  split; [done |]. unfold extractImageInfo.
  apply String.eqb_neq in Hne. rewrite Hne.
  set (base := if negb (LastIndex image ":" =? -1) then _ else _).
  exists base, (Split base "/"). repeat split.
  - apply strip_tag_spec.
  - apply Split_not_nil.
  - apply Split_free.
  - apply Join_Split.
  - apply org_and_name_of_parts, Split_not_nil.
Qed.

(** The example of the specification. *)
Lemma extractImageInfo_example :
  extractImageInfo
    "registry.cn-guangzhou.aliyuncs.com/fnapp/trim-chromium:latest"
  = ("fnapp", "trim-chromium").
Proof. reflexivity. Qed.

End ImageInfo.

(** ** The parser: the variables *)

Section ExtractVariablesFacts.
Import GoStrings Parser ParserTypes.

(** The head of a sorted enumeration is a least element. *)
Lemma sort_Strings_head (names : list string) :
  names <> [] ->
  exists first rest,
    sort_Strings names = first :: rest
    /\ first ∈ names
    /\ forall other, other ∈ names -> String.le first other.
Proof.
  intros Hne. unfold sort_Strings.
  pose proof (merge_sort_Permutation String.le names) as HP.
  pose proof (StronglySorted_merge_sort String.le names) as HS.
  destruct (merge_sort String.le names) as [|first rest].
  - apply Permutation_nil_l in HP. by subst.
  - exists first, rest. split; [done |]. split.
    + rewrite <- HP. by left.
    + intros other Hin. rewrite <- HP in Hin.
      apply StronglySorted_inv in HS as [_ Hall].
      apply elem_of_cons in Hin as [->|Hin]; [done |].
      by eapply Forall_forall in Hall.
Qed.

(** Sorting forgets the order of its input. *)
Lemma sort_Strings_perm (l1 l2 : list string) :
  l1 ≡ₚ l2 -> sort_Strings l1 = sort_Strings l2.
Proof.
  intros HP. unfold sort_Strings.
  apply (Sorted_unique String.le).
  - apply Sorted_merge_sort, _.
  - apply Sorted_merge_sort, _.
  - by rewrite !merge_sort_Permutation.
Qed.

(** C7: without services the variables are all empty; otherwise the
    service comes first whose name is least in the byte-wise order, in
    whatever order the names are met, the container name is the
    service's own unless that is empty, and the first port is read off
    the first port mapping, and is empty when there is none. *)
Theorem ExtractVariables_least_name (names : list string)
    (compose : ComposeFile) :
  names ≡ₚ (map_to_list (Services compose)).*1 ->
  let vars := ExtractVariables_range names compose in
  (Services compose = ∅ /\ vars = zero_Variables)
  \/ (exists name svc,
        Services compose !! name = Some svc
        /\ (forall other, is_Some (Services compose !! other) ->
                          String.le name other)
        /\ ServiceName vars = name
        /\ VContainerName vars
           = (if decide (ContainerName svc = "") then name
              else ContainerName svc)
        /\ FirstPort vars
           = match Ports svc with
             | [] => ""
             | p :: _ => extractHostPort p
             end
        /\ (ImageOrg vars, ImageName vars) = extractImageInfo (Image svc)).
Proof.
  intros HP vars. subst vars. unfold ExtractVariables_range.
  case_bool_decide as Hsize.
  - left. split; [| done]. by apply map_size_empty_iff.
  - right.
    assert (Hne : names <> []).
    { intros ->. apply Permutation_nil_l in HP.
      symmetry in HP. apply fmap_nil_inv in HP.
      apply map_to_list_empty_iff in HP.
      apply Hsize. by rewrite HP, map_size_empty. }
    destruct (sort_Strings_head names Hne) as (first & rest & -> & Hin & Hleast).
    simpl hd.
    assert (Hkey : forall k, k ∈ names <-> is_Some (Services compose !! k)).
    { intros k. rewrite HP, list_elem_of_fmap. split.
      - intros ([k' svc] & -> & Hel). apply elem_of_map_to_list in Hel. by eexists.
      - intros [svc Hsvc]. exists (k, svc). split; [done |].
        by apply elem_of_map_to_list. }
    destruct (proj1 (Hkey first) Hin) as [svc Hsvc].
    exists first, svc. rewrite Hsvc. simpl default.
    destruct (extractImageInfo (Image svc)) as [org name] eqn:Himg.
    simpl. repeat split; try done.
    + intros other Ho. apply Hleast. by apply Hkey.
    + case_decide as Hc.
      * by rewrite Hc.
      * apply String.eqb_neq in Hc. by rewrite Hc.
Qed.

(** C7 at two services declared out of order. *)
Lemma ExtractVariables_least_name_witness :
  let compose :=
    {| XFnpackOf := {| Manifest := ∅; Files := ∅ |};
       Services :=
         {[ "web" := {| Image := "nginx"; ContainerName := "";
                        Ports := ["8080:80"] |};
            "db" := {| Image := "library/postgres:16";
                       ContainerName := "pg"; Ports := [] |} ]} |} in
  let vars := ExtractVariables compose in
  (Services compose = ∅ /\ vars = zero_Variables)
  \/ (exists name svc,
        Services compose !! name = Some svc
        /\ (forall other, is_Some (Services compose !! other) ->
                          String.le name other)
        /\ ServiceName vars = name
        /\ VContainerName vars
           = (if decide (ContainerName svc = "") then name
              else ContainerName svc)
        /\ FirstPort vars
           = match Ports svc with
             | [] => ""
             | p :: _ => extractHostPort p
             end
        /\ (ImageOrg vars, ImageName vars) = extractImageInfo (Image svc)).
Proof.
  intros compose.
  apply (ExtractVariables_least_name (map_to_list (Services compose)).*1 compose).
  reflexivity.
Defined.

End ExtractVariablesFacts.

(** ** The manifest *)

Section ManifestFacts.
Import GoStrings Parser ParserTypes Generator ManifestWording.

(** A loop of assignments over entries with distinct keys leaves, at
    each key, the value of its entry, and the old value elsewhere. *)
Lemma assign_all_lookup (entries : list (string * string))
    (result : gmap string string) (key : string) :
  NoDup entries.*1 ->
  assign_all entries result !! key
  = match (list_to_map entries : gmap string string) !! key with
    | Some v => Some v
    | None => result !! key
    end.
Proof.
  unfold assign_all. revert result.
  induction entries as [|[k v] l IH]; intros result Hnd; simpl.
  - by rewrite lookup_empty.
  - apply NoDup_cons in Hnd as [Hk Hnd]. rewrite IH by done.
    destruct (decide (k = key)) as [->|Hne].
    + rewrite lookup_insert_eq.
      rewrite (not_elem_of_list_to_map_1 l key Hk).
      by rewrite lookup_insert_eq.
    + rewrite !(lookup_insert_ne _ k key) by done. done.
Qed.

(** So the order of the entries is of no account. *)
Lemma assign_all_perm (l1 l2 : list (string * string))
    (result : gmap string string) :
  NoDup l1.*1 -> l1 ≡ₚ l2 -> assign_all l1 result = assign_all l2 result.
Proof.
  intros Hnd HP. apply map_eq. intros key.
  assert (Hnd2 : NoDup l2.*1) by by rewrite <- HP.
  rewrite !assign_all_lookup by done.
  by rewrite (list_to_map_proper l1 l2 Hnd HP).
Qed.

Lemma resolve_range_perm entries sched manifest vars :
  entries ≡ₚ map_to_list manifest ->
  resolve_range entries sched manifest vars = resolve sched manifest vars.
Proof.
  intros HP. unfold resolve, resolve_range.
  set (f := fun kv : string * Value => _).
  rewrite (assign_all_perm (map f entries) (map f (map_to_list manifest))).
  - done.
  - assert (E : (map f entries).*1 = entries.*1).
    { rewrite <- list_fmap_compose. by apply list_fmap_ext. }
    rewrite E, HP. apply NoDup_fst_map_to_list.
  - by apply fmap_Permutation.
Qed.

Lemma emit_perm keys1 keys2 result :
  keys1 ≡ₚ keys2 -> emit keys1 result = emit keys2 result.
Proof.
  intros HP.
  assert (E : remaining_keys keys1 result = remaining_keys keys2 result).
  { unfold remaining_keys. apply sort_Strings_perm. by rewrite HP. }
  unfold emit. by rewrite E.
Qed.

(** Of the loops over a map in [GenerateManifest], the two of its own
    give the same output in every order; what is left to chance is the
    order inside each [ReplaceVariables] call. *)
Lemma GenerateManifest_range_irrelevant entries keys_of sched manifest vars :
  entries ≡ₚ map_to_list manifest ->
  (forall result, keys_of result ≡ₚ (map_to_list result).*1) ->
  GenerateManifest_range entries keys_of sched manifest vars
  = GenerateManifest sched manifest vars.
Proof.
  intros HP Hk. unfold GenerateManifest, GenerateManifest_range.
  rewrite (resolve_range_perm entries) by done.
  unfold resolve. by apply emit_perm.
Qed.

End ManifestFacts.

Section ManifestLayout.
Import GoStrings Parser ParserTypes Generator ManifestWording.

Lemma has_value_spec result key :
  has_value result key = true <-> nonempty_at result key.
Proof.
  unfold has_value, nonempty_at. destruct (result !! key) as [v|].
  - destruct (String.eqb_spec v "") as [->|Hne]; simpl.
    + split; [done |]. by intros (v' & [= <-] & Hv').
    + split; [| done]. intros _. by exists v.
  - split; [done |]. by intros (v' & [=] & _).
Qed.

Lemma remaining_keys_spec result key :
  key ∈ remaining_keys ((map_to_list result).*1) result
  <-> (key ∉ ManifestFieldOrder) /\ nonempty_at result key.
Proof.
  unfold remaining_keys, sort_Strings.
  rewrite merge_sort_Permutation, list_elem_of_filter.
  rewrite andb_true_iff, bool_decide_eq_true, negb_true_iff, String.eqb_neq.
  unfold ordered_keys. rewrite list_elem_of_filter, has_value_spec.
  unfold nonempty_at. split.
  - intros [[Hnot Hval] Hin].
    apply list_elem_of_fmap in Hin as ([k v] & -> & Hel).
    apply elem_of_map_to_list in Hel. simpl in *. rewrite Hel in *.
    simpl in Hval. split; [| by exists v].
    intros Hmem. apply Hnot. split; [by exists v | done].
  - intros [Hnot (v & Hv & Hne)]. rewrite Hv. simpl. split.
    + split; [| done]. by intros [_ Hmem].
    + apply list_elem_of_fmap. exists (key, v). split; [done |].
      by apply elem_of_map_to_list.
Qed.

(** The line of a key and its value. *)
Lemma formatManifestLine_spec (key value : string) :
  formatManifestLine key value
  = if decide (String.length key < 16)%nat
    then key +:+ spaces (16 - RuneCountInString key) +:+ "= " +:+ value
    else key +:+ " = " +:+ value.
Proof.
  unfold formatManifestLine, pad_right, len.
  case_decide as Hlen.
  - assert (E : (Z.of_nat (String.length key) <? 16) = true) by (apply Z.ltb_lt; lia).
    rewrite E. by rewrite append_assoc.
  - assert (E : (Z.of_nat (String.length key) <? 16) = false) by (apply Z.ltb_ge; lia).
    by rewrite E.
Qed.

(** C4, as the code has it: the manifest is its lines, each followed by
    one line feed (and is a single line feed when there is no line).
    The lines are those of the keys of the fixed order that have a
    non-empty value, in that order, and then those of all other keys
    with a non-empty value, in ascending byte-wise order.  A key
    shorter than sixteen bytes is followed by spaces up to a width of
    sixteen characters and by the equals sign; a key of sixteen bytes or
    more is written in full, never cut, and followed by one space and
    the equals sign. *)
Theorem GenerateManifest_layout (sched : string -> RangeOrder)
    (manifest : gmap string Value) (vars : Variables) :
  let result := resolve sched manifest vars in
  let line key := formatManifestLine key (default "" (result !! key)) in
  exists rest,
    GenerateManifest sched manifest vars
    = Join (map line
              (filter (fun key => has_value result key = true)
                      ManifestFieldOrder ++ rest)) NL
      +:+ NL
    /\ (forall key, has_value result key = true <-> nonempty_at result key)
    /\ Sorted String.le rest
    /\ NoDup rest
    /\ (forall key, key ∈ rest
                    <-> (key ∉ ManifestFieldOrder) /\ nonempty_at result key)
    /\ (forall key value,
          formatManifestLine key value
          = if decide (String.length key < 16)%nat
            then key +:+ spaces (16 - RuneCountInString key) +:+ "= " +:+ value
            else key +:+ " = " +:+ value).
Proof.
  intros result line.
  exists (remaining_keys ((map_to_list result).*1) result).
  split; [| split; [| split; [| split; [| split]]]].
  - reflexivity.
  - apply has_value_spec.
  - apply Sorted_merge_sort, _.
  - unfold remaining_keys, sort_Strings. rewrite merge_sort_Permutation.
    apply NoDup_filter, NoDup_fst_map_to_list.
  - apply remaining_keys_spec.
  - apply formatManifestLine_spec.
Qed.

(** C4, as worded, fails: the line of a key longer than sixteen bytes
    holds the whole key, not a sixteen-character column.  The key below
    is in the manifest of every build that has a service. *)
Lemma formatManifestLine_never_truncates :
  formatManifestLine "desktop_applaunchname" "web.Application"
  = "desktop_applaunchname = web.Application"
  /\ line_as_worded "desktop_applaunchname" "web.Application"
     = "desktop_applaunc = web.Application"
  /\ formatManifestLine "desktop_applaunchname" "web.Application"
     <> line_as_worded "desktop_applaunchname" "web.Application".
Proof. repeat split. vm_compute. discriminate. Qed.

End ManifestLayout.

Section ManifestAppname.
Import GoStrings Parser ParserTypes Generator ManifestWording Builder.

Lemma Join_cons (x : string) (l : list string) (sep : string) :
  exists tail, Join (x :: l) sep +:+ sep = x +:+ sep +:+ tail.
Proof.
  unfold Join. destruct l as [|y l]; simpl.
  - exists "". by rewrite append_nil_r.
  - eexists. by rewrite !append_assoc.
Qed.

(** What [result] holds at a key of the manifest object. *)
Lemma resolve_range_manifest_key sched manifest vars key value :
  key <> "desktop_applaunchname" ->
  manifest !! key = Some value ->
  resolve sched manifest vars !! key
  = Some (ReplaceVariables (sched key) (formatManifestValue value) vars).
Proof.
  intros Hkey Hlook. unfold resolve, resolve_range.
  set (f := fun kv : string * Value => _).
  set (r0 := if negb (FirstPort vars =? "")%string then _ else _).
  assert (E : (map f (map_to_list manifest)).*1 = (map_to_list manifest).*1).
  { rewrite <- list_fmap_compose. by apply list_fmap_ext. }
  assert (Hfinal : assign_all (map f (map_to_list manifest)) r0 !! key
                   = Some (ReplaceVariables (sched key) (formatManifestValue value) vars)).
  { rewrite assign_all_lookup by (rewrite E; apply NoDup_fst_map_to_list).
    erewrite elem_of_list_to_map_1; [done | |].
    - rewrite E. apply NoDup_fst_map_to_list.
    - apply (list_elem_of_fmap_2 f _ (key, value)).
      by apply elem_of_map_to_list. }
  destruct (manifest !! "desktop_applaunchname"); [done |].
  destruct (manifest !! "desktop_appname"); [done |].
  destruct (assign_all _ r0 !! "appname") as [appname|]; [| done].
  destruct (negb (appname =? "")%string); [| done].
  by rewrite lookup_insert_ne.
Qed.

(** The manifest resolves a key of the manifest object to its value
    with the placeholders substituted; for [appname] this is what the
    first line shows. *)
Lemma manifest_shows_substituted_appname (sched : string -> RangeOrder)
    (manifest : gmap string Value) (vars : Variables) (appname : Value) :
  let shown :=
    ReplaceVariables (sched "appname") (formatManifestValue appname) vars in
  manifest !! "appname" = Some appname ->
  resolve sched manifest vars !! "appname" = Some shown
  /\ (if decide (shown = "")
      then has_value (resolve sched manifest vars) "appname" = false
      else exists tail,
             GenerateManifest sched manifest vars
             = formatManifestLine "appname" shown +:+ NL +:+ tail).
Proof.
  intros shown Hlook.
  assert (Hres : resolve sched manifest vars !! "appname" = Some shown).
  { by apply resolve_range_manifest_key. }
  split; [done |]. case_decide as Hshown.
  - unfold has_value. by rewrite Hres, Hshown.
  - unfold GenerateManifest, GenerateManifest_range, emit.
    fold (resolve sched manifest vars).
    set (result := resolve sched manifest vars) in *.
    assert (Hv : has_value result "appname" = true).
    { unfold has_value. rewrite Hres. by apply negb_true_iff, String.eqb_neq. }
    unfold ordered_keys, ManifestFieldOrder.
    rewrite filter_cons_True by done.
    cbn [app map]. rewrite Hres. cbn [default].
    apply Join_cons.
Qed.

(** C10, as the code has it: with an [appname] in the manifest object,
    the application name, hence the directory name, is the formatted
    value as it stands, whereas the manifest resolves [appname] to that
    value with the placeholders substituted and shows it on its first
    line (and has no [appname] line when nothing is left of it).  The
    two names differ exactly when the substitution changes the value. *)
Theorem appname_verbatim_for_directory (sched : string -> RangeOrder)
    (inputDir outputDir : string) (compose : ComposeFile) (appname : Value) :
  let manifest := Manifest (XFnpackOf compose) in
  let vars := ExtractVariables compose in
  let shown :=
    ReplaceVariables (sched "appname") (formatManifestValue appname) vars in
  manifest !! "appname" = Some appname ->
  GetManifestAppname manifest vars = formatManifestValue appname
  /\ AppName (parseCompose inputDir outputDir compose)
     = formatManifestValue appname
  /\ resolve sched manifest vars !! "appname" = Some shown
  /\ (if decide (shown = "")
      then has_value (resolve sched manifest vars) "appname" = false
      else exists tail,
             GenerateManifest sched manifest vars
             = formatManifestLine "appname" shown +:+ NL +:+ tail)
  /\ (AppName (parseCompose inputDir outputDir compose) <> shown
      <-> shown <> formatManifestValue appname).
Proof.
  intros manifest vars shown Hlook.
  assert (Hget : GetManifestAppname manifest vars = formatManifestValue appname).
  { unfold GetManifestAppname. by rewrite Hlook. }
  destruct (manifest_shows_substituted_appname sched manifest vars appname Hlook)
    as [Hres Hline].
  split; [done |]. split; [done |]. split; [done |]. split; [done |].
  simpl. fold manifest vars. rewrite Hget.
  split; intros H E; apply H; by rewrite E.
Qed.

(** C10 at the example of the claim: the directory keeps the
    placeholder, the manifest shows the service name. *)
Lemma appname_verbatim_for_directory_witness :
  let compose :=
    {| XFnpackOf :=
         {| Manifest := {[ "appname" := VString "${SERVICE_NAME}" ]};
            Files := ∅ |};
       Services := {[ "web" := {| Image := ""; ContainerName := "";
                                  Ports := ["3000:3000"] |} ]} |} in
  AppName (parseCompose "in" "dist" compose) = "${SERVICE_NAME}"
  /\ resolve (fun _ => SCF) (Manifest (XFnpackOf compose))
       (ExtractVariables compose) !! "appname" = Some "web"
  /\ AppName (parseCompose "in" "dist" compose) <> "web".
Proof.
  intros compose.
  destruct (appname_verbatim_for_directory (fun _ => SCF) "in" "dist" compose
              (VString "${SERVICE_NAME}") eq_refl)
    as (_ & Hdir & Hres & _ & _).
  split; [exact Hdir |]. split; [exact Hres |].
  rewrite Hdir. discriminate.
Defined.

(** C10, as worded, fails: an [appname] may hold a placeholder and
    still be the same in the directory name and in the manifest, here
    because the first port mapping is itself written with that
    placeholder, in every order of the replacements. *)
Lemma appname_with_placeholder_may_agree :
  let compose :=
    {| XFnpackOf :=
         {| Manifest := {[ "appname" := VString "app-${FIRST_PORT}" ]};
            Files := ∅ |};
       Services := {[ "web" := {| Image := ""; ContainerName := "";
                                  Ports := ["${FIRST_PORT}:8080"] |} ]} |} in
  let manifest := Manifest (XFnpackOf compose) in
  let vars := ExtractVariables compose in
  "app-${FIRST_PORT}" = "app-" +:+ "${FIRST_PORT}"
  /\ "${FIRST_PORT}" ∈ placeholders
  /\ FirstPort vars = "${FIRST_PORT}"
  /\ forall o : RangeOrder,
       AppName (parseCompose "in" "dist" compose) = "app-${FIRST_PORT}"
       /\ resolve (fun _ => o) manifest vars !! "appname"
          = Some "app-${FIRST_PORT}"
       /\ exists tail,
            GenerateManifest (fun _ => o) manifest vars
            = "appname         = app-${FIRST_PORT}" +:+ NL +:+ tail.
Proof.
  intros compose manifest vars.
  split; [reflexivity |]. split; [unfold placeholders; set_solver |].
  split; [reflexivity |].
  intros o. split; [reflexivity |].
  split; [by destruct o; vm_compute |].
  destruct (manifest_shows_substituted_appname (fun _ => o) manifest vars
              (VString "app-${FIRST_PORT}") eq_refl)
    as [_ Hline].
  assert (E : ReplaceVariables o "app-${FIRST_PORT}" vars
              = "app-${FIRST_PORT}") by (destruct o; reflexivity).
  cbn [formatManifestValue] in Hline. rewrite E in Hline.
  exact Hline.
Qed.

End ManifestAppname.

Section ManifestDeterminism.
Import GoStrings Parser ParserTypes Generator.

(** C3 is broken by [ReplaceVariables]: a container name written with
    the service-name placeholder makes the manifest depend on the order
    in which Go ranges over the three replacements. *)
Lemma GenerateManifest_depends_on_range_order :
  let compose :=
    {| XFnpackOf :=
         {| Manifest := {[ "desc" := VString "${CONTAINER_NAME}" ]};
            Files := ∅ |};
       Services := {[ "web" := {| Image := "";
                                  ContainerName := "${SERVICE_NAME}";
                                  Ports := [] |} ]} |} in
  let manifest := Manifest (XFnpackOf compose) in
  let vars := ExtractVariables compose in
  vars = {| ServiceName := "web"; VContainerName := "${SERVICE_NAME}";
            FirstPort := ""; ImageOrg := ""; ImageName := "" |}
  /\ ReplaceVariables SCF "${CONTAINER_NAME}" vars = "${SERVICE_NAME}"
  /\ ReplaceVariables CSF "${CONTAINER_NAME}" vars = "web"
  /\ resolve (fun _ => SCF) manifest vars !! "desc" = Some "${SERVICE_NAME}"
  /\ resolve (fun _ => CSF) manifest vars !! "desc" = Some "web"
  /\ GenerateManifest (fun _ => SCF) manifest vars
     <> GenerateManifest (fun _ => CSF) manifest vars.
Proof.
  intros compose manifest vars.
  split; [reflexivity |]. split; [reflexivity |]. split; [reflexivity |].
  split; [by vm_compute |]. split; [by vm_compute |].
  vm_compute. discriminate.
Qed.

End ManifestDeterminism.

(** ** The builder *)

Section IOFacts.
Import GoStrings Parser ParserTypes Generator GeneratorJSON GoImage.
Import Builder BuilderWording.
Variable env : Env.

Lemma run_all_nil h : run_all env [] h = (Ok tt, h).
Proof. reflexivity. Qed.

Lemma run_all_cons a acts h :
  run_all env (a :: acts) h
  = match os_error env h a with
    | None => run_all env acts (h ++ [a])
    | Some msg => (Err msg, h)
    end.
Proof.
  unfold run_all. simpl. unfold mbind, IO_bind, bind, perform.
  by destruct (os_error env h a).
Qed.

Lemma run_all_app acts1 acts2 h :
  run_all env (acts1 ++ acts2) h
  = match run_all env acts1 h with
    | (Ok _, h') => run_all env acts2 h'
    | (Err msg, h') => (Err msg, h')
    end.
Proof.
  revert h. induction acts1 as [|a acts1 IH]; intros h.
  - by rewrite run_all_nil.
  - simpl app. rewrite !run_all_cons.
    destruct (os_error env h a); [done |]. apply IH.
Qed.

Lemma all_succeed_cons h a acts :
  all_succeed env h (a :: acts)
  <-> os_error env h a = None /\ all_succeed env (h ++ [a]) acts.
Proof.
  unfold all_succeed. split.
  - intros H. split.
    + specialize (H 0%nat a eq_refl). simpl in H. by rewrite app_nil_r in H.
    + intros i x Hx. specialize (H (S i) x Hx). simpl in H.
      by rewrite <- app_assoc.
  - intros [H0 H] [|i] x Hx; simpl in *.
    + simplify_eq. by rewrite app_nil_r.
    + specialize (H i x Hx). by rewrite <- app_assoc in H.
Qed.

(** When every action succeeds, all of them are in the history. *)
Lemma run_all_ok h acts :
  all_succeed env h acts -> run_all env acts h = (Ok tt, h ++ acts).
Proof.
  revert h. induction acts as [|a acts IH]; intros h Hall.
  - by rewrite run_all_nil, app_nil_r.
  - apply all_succeed_cons in Hall as [H0 Hall].
    rewrite run_all_cons, H0, (IH _ Hall). by rewrite <- app_assoc.
Qed.

(** At the first failure the run stops with an error, the actions
    before it being in the history. *)
Lemma run_all_fail h acts i :
  first_failure env h acts i ->
  exists msg, run_all env acts h = (Err msg, h ++ take i acts).
Proof.
  intros (Hall & a & Ha & [msg Hmsg]).
  replace (run_all env acts h)
    with (run_all env (take i acts ++ drop i acts) h)
    by (by rewrite take_drop).
  rewrite run_all_app.
  rewrite (run_all_ok _ _ Hall).
  rewrite (drop_S _ _ _ Ha), run_all_cons, Hmsg. by exists msg.
Qed.

(** Either every action succeeds or one is the first to fail. *)
Lemma all_succeed_or_first_failure h acts :
  all_succeed env h acts \/ exists i, first_failure env h acts i.
Proof.
  revert h. induction acts as [|a acts IH]; intros h.
  - left. by intros i x Hx.
  - destruct (os_error env h a) as [msg|] eqn:E.
    + right. exists 0%nat. split; [by intros i x Hx |].
      exists a. simpl. rewrite app_nil_r, E. by split.
    + destruct (IH (h ++ [a])) as [Hall | (i & Hall & x & Hx & Hfail)].
      * left. by apply all_succeed_cons.
      * right. exists (S i). split.
        -- simpl. by apply all_succeed_cons.
        -- exists x. simpl. rewrite <- app_assoc in Hfail. by split.
Qed.


Lemma performs_ret : performs env (ret tt) [].
Proof. intros h. by split. Qed.

Lemma performs_perform a : performs env (perform env a) [a].
Proof.
  intros h. rewrite run_all_cons. unfold perform.
  destruct (os_error env h a); by split.
Qed.

Lemma performs_wrap prefix step acts :
  performs env step acts -> performs env (wrap prefix step) acts.
Proof.
  intros H h. specialize (H h). unfold wrap.
  destruct (step h) as [[v|msg] h1]; exact H.
Qed.

Lemma performs_bind (step1 step2 : IO unit) acts1 acts2 :
  performs env step1 acts1 -> performs env step2 acts2 ->
  performs env (step1;; step2) (acts1 ++ acts2).
Proof.
  intros H1 H2 h. rewrite run_all_app.
  unfold mbind, IO_bind, bind. specialize (H1 h).
  destruct (step1 h) as [[[]|msg1] h1], (run_all env acts1 h) as [[[]|msg2] h2];
    destruct H1 as [Hh Hr]; simpl in *; subst; first [done | apply H2].
Qed.

Lemma performs_for_each {T} (l : list T) (body : T -> IO unit)
    (acts_of : T -> list Action) :
  (forall x, performs env (body x) (acts_of x)) ->
  performs env (for_each l body) (flat_map acts_of l).
Proof.
  intros Hbody. induction l as [|x l IH]; simpl.
  - apply performs_ret.
  - by apply performs_bind.
Qed.

(** What a step that performs a list of actions returns. *)
Lemma performs_ok step acts h :
  performs env step acts -> all_succeed env h acts ->
  step h = (Ok tt, h ++ acts).
Proof.
  intros Hp Hall. specialize (Hp h). rewrite (run_all_ok _ _ Hall) in Hp.
  destruct (step h) as [[[]|msg] h1], Hp as [Hh Hr]; simpl in *; by subst.
Qed.

Lemma performs_fail step acts h i :
  performs env step acts -> first_failure env h acts i ->
  exists msg, step h = (Err msg, h ++ take i acts).
Proof.
  intros Hp Hi. specialize (Hp h).
  destruct (run_all_fail _ _ _ Hi) as [msg Hmsg]. rewrite Hmsg in Hp.
  destruct (step h) as [[[]|msg'] h1], Hp as [Hh Hr]; simpl in *; subst; [done |].
  by exists msg'.
Qed.


End IOFacts.

Section IconFacts.
Import GoStrings Parser ParserTypes Generator GeneratorJSON GoImage.
Import Builder BuilderWording Examples.
Variable env : Env.
Variable b : Builder.

Lemma performs_saveIcon img destPath :
  performs env (saveIcon env img destPath) (save_actions env img destPath).
Proof.
  unfold saveIcon, save_actions.
  apply (performs_bind env _ _ [_] [_; _]).
  { apply performs_wrap, performs_perform. }
  apply (performs_bind env _ _ [_] [_]).
  { apply performs_wrap, performs_perform. }
  apply performs_wrap, performs_perform.
Qed.

Lemma performs_CopyIcons srcImg :
  performs env (CopyIcons env b srcImg) (icon_actions env b srcImg).
Proof.
  unfold CopyIcons, icon_actions. apply performs_for_each.
  intros [[width height] destPath].
  apply performs_wrap, performs_saveIcon.
Qed.

(** What the search for an icon answers. *)
Lemma FindIcon_outcome h :
  FindIcon env b h
  = match ReadDir env (InputDir b) with
    | inl msg => (Err ("failed to read input directory: " +:+ msg), h)
    | inr entries =>
        match List.find (is_png env) entries with
        | Some entry => (Ok (filepath_Join env [InputDir b; Name entry]), h)
        | None => (Err ("no .png file found in " +:+ InputDir b), h)
        end
    end.
Proof.
  unfold FindIcon, mbind, IO_bind, bind, wrap, lift.
  destruct (ReadDir env (InputDir b)) as [msg|entries]; [done |].
  fold (is_png env). by destruct (List.find (is_png env) entries).
Qed.

(** C6, as the code has it: when the search for an icon fails, be it
    that the input directory has no PNG file or that the directory
    cannot be read, [ProcessIcons] succeeds and does nothing.  Once an
    icon is found, a failure to open and decode it is an error, and so
    is the first failure among the actions that create the directories
    and files and encode the four images; only when all of them succeed
    does [ProcessIcons] succeed.  [Build] hands an error of
    [ProcessIcons] on to its caller. *)
Theorem ProcessIcons_outcome (h : list Action) :
  match ReadDir env (InputDir b) with
  | inl _ => ProcessIcons env b h = (Ok tt, h)
  | inr entries =>
      match List.find (is_png env) entries with
      | None => ProcessIcons env b h = (Ok tt, h)
      | Some entry =>
          match Open env (filepath_Join env [InputDir b; Name entry]) with
          | inl msg =>
              ProcessIcons env b h
              = (Err ("failed to open icon: " +:+ msg), h)
          | inr img =>
              let acts := icon_actions env b (squareImage img) in
              (all_succeed env h acts
               /\ ProcessIcons env b h = (Ok tt, h ++ acts))
              \/ (exists i msg,
                    first_failure env h acts i
                    /\ ProcessIcons env b h = (Err msg, h ++ take i acts))
          end
      end
  end
  /\ forall h0 h1 h2 msg,
       (wrap "failed to create directories" (CreateDirectories env b);;
        wrap "failed to write files" (writeAllFiles env b)) h0 = (Ok tt, h1) ->
       ProcessIcons env b h1 = (Err msg, h2) ->
       Build env b h0 = (Err ("failed to process icons: " +:+ msg), h2).
Proof.
  split.
  - unfold ProcessIcons. rewrite FindIcon_outcome.
    destruct (ReadDir env (InputDir b)) as [msg|entries]; [done |].
    destruct (List.find (is_png env) entries) as [entry|]; [| done].
    unfold mbind, IO_bind, bind, wrap, lift.
    destruct (Open env _) as [msg|img]; [done |].
    cbv zeta. set (acts := icon_actions env b (squareImage img)).
    pose proof (performs_CopyIcons (squareImage img)) as Hp.
    destruct (all_succeed_or_first_failure env h acts) as [Hall | [i Hi]].
    + left. split; [done |]. by apply (performs_ok env _ acts).
    + right. destruct (performs_fail env _ _ h i Hp Hi) as [msg Hmsg].
      by exists i, msg.
  - intros h0 h1 h2 msg Hbefore Hicons. unfold Build.
    unfold mbind, IO_bind, bind in *.
    destruct (wrap "failed to create directories" (CreateDirectories env b) h0)
      as [[[]|e] h'] eqn:E1; [| done].
    rewrite Hbefore. unfold wrap at 1. by rewrite Hicons.
Qed.

End IconFacts.

Section IconCounterexample.
Import GoStrings Parser ParserTypes Generator GeneratorJSON GoImage.
Import Builder BuilderWording Examples.

(** C6, as worded, fails: a failure to read the input directory is a
    read failure, yet [ProcessIcons] answers it with success and the
    build goes through. *)
Lemma ProcessIcons_swallows_ReadDir_failure :
  let env := example_env (inl "permission denied") (inl "unused") [] in
  ReadDir env (InputDir example_builder) = inl "permission denied"
  /\ FindIcon env example_builder []
     = (Err "failed to read input directory: permission denied", [])
  /\ ProcessIcons env example_builder [] = (Ok tt, [])
  /\ fst (Build env example_builder []) = Ok tt.
Proof. intros env. by vm_compute. Qed.

(** C6 at an input directory with an icon that does not decode: the
    error of the decoder is the error of [ProcessIcons] and of the
    build. *)
Lemma ProcessIcons_outcome_witness :
  let env :=
    example_env (inr [{| Name := "icon.png"; IsDir := false |}])
      (inl "png: invalid format") [] in
  let written :=
    snd ((wrap "failed to create directories"
            (CreateDirectories env example_builder);;
          wrap "failed to write files" (writeAllFiles env example_builder))
           []) in
  ProcessIcons env example_builder written
  = (Err "failed to open icon: png: invalid format", written)
  /\ Build env example_builder []
     = (Err "failed to process icons: failed to open icon: png: invalid format",
        written).
Proof.
  intros env written.
  destruct (ProcessIcons_outcome env example_builder written) as [Hicons Hbuild].
  change (ProcessIcons env example_builder written
          = (Err "failed to open icon: png: invalid format", written))
    in Hicons.
  split; [exact Hicons |].
  apply (Hbuild [] written written); [by vm_compute | exact Hicons].
Defined.

End IconCounterexample.

Section IconNames.
Import GoStrings Parser ParserTypes Generator GeneratorJSON GoImage.
Import Builder IconWording.


End IconNames.

Section SquareImage.
Import GoImage Builder ImageWording.

Lemma blend_over_transparent (s sa : Z) :
  0 <= s <= 0xffff -> 0 <= sa <= 0xffff ->
  blend Over 0 s sa = s / 256.
Proof.
  intros Hs Hsa. unfold blend, uint32, uint8, m.
  rewrite Z.mul_0_l, Zmod_0_l, Z.add_0_l.
  rewrite (Z.mod_small (s * 65535)) by nia.
  rewrite (Z.mod_small (s * 65535)) by nia.
  rewrite Z.div_mul by lia.
  rewrite Z.shiftr_div_pow2 by lia.
  change (2 ^ 8) with 256. apply Z.mod_small.
  split; [apply Z.div_pos; lia |].
  apply Z.div_lt_upper_bound; lia.
Qed.

Lemma blend_src_transparent (d sa : Z) : blend Src d 0 sa = 0.
Proof. reflexivity. Qed.

(** The canvas after the fill is transparent throughout. *)
Lemma fill_is_transparent (r : Rectangle) (x y : Z) :
  Pix (Draw (NewRGBA r) (RGBA_Rect (NewRGBA r)) (Uniform Transparent)
         {| X := 0; Y := 0 |} Src) x y
  = {| r8 := 0; g8 := 0; b8 := 0; a8 := 0 |}.
Proof. unfold Draw. cbn [Pix NewRGBA]. by destruct (In_rect x y _). Qed.

Lemma Rect_ordered (x0 y0 x1 y1 : Z) :
  x0 <= x1 -> y0 <= y1 ->
  Rect x0 y0 x1 y1
  = {| Min := {| X := x0; Y := y0 |}; Max := {| X := x1; Y := y1 |} |}.
Proof.
  intros Hx Hy. unfold Rect.
  destruct (Z.gtb_spec x0 x1); [lia |].
  destruct (Z.gtb_spec y0 y1); [lia | done].
Qed.

Lemma In_rect_spec (x y : Z) (r : Rectangle) :
  In_rect x y r = true
  <-> X (Min r) <= x < X (Max r) /\ Y (Min r) <= y < Y (Max r).
Proof. unfold In_rect. rewrite !andb_true_iff. lia. Qed.

(** A point lies in an intersection when it lies in both rectangles. *)
Lemma In_rect_Intersect (x y : Z) (r s : Rectangle) :
  In_rect x y (Intersect r s) = In_rect x y r && In_rect x y s.
Proof.
  apply eq_true_iff_eq. rewrite andb_true_iff, !In_rect_spec.
  unfold Intersect, Empty. simpl.
  destruct (_ || _) eqn:E.
  - apply orb_true_iff in E. simpl. lia.
  - apply orb_false_iff in E. simpl. lia.
Qed.

(** C8: a source as wide as it is high comes back as it is.  Any
    other source of width [W] and height [H] gives the canvas of side
    [S = max W H] at the origin, on which the pixel at [(x, y)] is that
    of the source moved by [((S - W) / 2, (S - H) / 2)], the quotients
    being rounded down, as it shows in an image of eight bits a
    channel, and is transparent outside the moved source. *)
Theorem squareImage_centres_on_square_canvas (src : Image) :
  let W := Dx (Bounds src) in
  let H := Dy (Bounds src) in
  let S := Z.max W H in
  let offsetX := (S - W) / 2 in
  let offsetY := (S - H) / 2 in
  0 <= W -> 0 <= H ->
  (forall x y, valid_color (At src x y)) ->
  (W = H /\ squareImage src = src)
  \/ (W <> H
      /\ Bounds (squareImage src) = canvas S
      /\ forall x y,
           At (squareImage src) x y
           = if (offsetX <=? x) && (x <? offsetX + W)
                && (offsetY <=? y) && (y <? offsetY + H)
             then through_8_bits
                    (At src (X (Min (Bounds src)) + (x - offsetX))
                            (Y (Min (Bounds src)) + (y - offsetY)))
             else Transparent).
Proof.
  intros W H S offsetX offsetY HW HH Hvalid.
  unfold squareImage. fold W H.
  destruct (Z.eqb_spec W H) as [E|Hne]; [by left | right].
  split; [done |].
  assert (Hsize : (if H >? W then H else W) = S).
  { unfold S. destruct (Z.gtb_spec H W); lia. }
  rewrite Hsize.
  assert (HoX : (S - W) ÷ 2 = offsetX) by (apply Z.quot_div_nonneg; lia).
  assert (HoY : (S - H) ÷ 2 = offsetY) by (apply Z.quot_div_nonneg; lia).
  rewrite HoX, HoY.
  assert (HX : 0 <= offsetX /\ offsetX + W <= S).
  { unfold offsetX. split; [apply Z.div_pos; lia |].
    pose proof (Z.mul_div_le (S - W) 2). lia. }
  assert (HY : 0 <= offsetY /\ offsetY + H <= S).
  { unfold offsetY. split; [apply Z.div_pos; lia |].
    pose proof (Z.mul_div_le (S - H) 2). lia. }
  rewrite (Rect_ordered 0 0 S S) by lia.
  rewrite (Rect_ordered offsetX offsetY) by lia.
  set (board := {| Min := {| X := 0; Y := 0 |}; Max := {| X := S; Y := S |} |}).
  set (placed := {| Min := {| X := offsetX; Y := offsetY |};
                    Max := {| X := offsetX + W; Y := offsetY + H |} |}).
  set (dst := Draw (NewRGBA board) _ _ _ Src).
  assert (Hrect : RGBA_Rect dst = board) by done.
  assert (Hpix : forall x y, Pix dst x y = {| r8 := 0; g8 := 0; b8 := 0; a8 := 0 |}).
  { intros x y. apply fill_is_transparent. }
  clearbody dst.
  split; [done |]. intros x y.
  unfold as_Image, Draw. cbn [RGBA_Rect Pix At Bounds]. rewrite Hrect, Hpix.
  rewrite !In_rect_Intersect.
  assert (Hplaced : In_rect x y placed
                    = (offsetX <=? x) && (x <? offsetX + W)
                      && (offsetY <=? y) && (y <? offsetY + H)) by done.
  rewrite <- Hplaced.
  assert (Hmoved : In_rect x y (Add (Bounds src) (Sub (Min placed) (Min (Bounds src))))
                   = In_rect x y placed).
  { apply eq_true_iff_eq. rewrite !In_rect_spec. unfold Add, Sub, placed.
    cbn [Min Max X Y]. unfold W, H, Dx, Dy. lia. }
  rewrite Hmoved.
  destruct (In_rect x y placed) eqn:Hin.
  - assert (Hb : In_rect x y board = true).
    { apply In_rect_spec. apply In_rect_spec in Hin.
      unfold placed, board in *. cbn [Min Max X Y] in *. lia. }
    rewrite Hb. cbn [andb placed Min X Y r8 g8 b8 a8].
    replace (x - offsetX + X (Min (Bounds src)))
      with (X (Min (Bounds src)) + (x - offsetX)) by lia.
    replace (y - offsetY + Y (Min (Bounds src)))
      with (Y (Min (Bounds src)) + (y - offsetY)) by lia.
    destruct (Hvalid (X (Min (Bounds src)) + (x - offsetX))
                     (Y (Min (Bounds src)) + (y - offsetY)))
      as (HR & HG & HB & HA).
    by rewrite !blend_over_transparent.
  - rewrite !andb_false_r. by destruct (In_rect x y board).
Qed.

(** C8 at a red image two pixels wide and one high: the canvas is two
    by two, the image lies in its upper row, the lower row is
    transparent. *)
Lemma squareImage_centres_on_square_canvas_witness :
  Bounds (squareImage Examples.example_image) = canvas 2
  /\ At (squareImage Examples.example_image) 1 0
     = {| R := 0xffff; G := 0; B := 0; A := 0xffff |}
  /\ At (squareImage Examples.example_image) 1 1 = Transparent.
Proof.
  destruct (squareImage_centres_on_square_canvas Examples.example_image)
    as [[HWH _] | (_ & Hbounds & Hat)].
  - by vm_compute.
  - by vm_compute.
  - intros x y. repeat split; simpl; lia.
  - by vm_compute in HWH.
  - split; [exact Hbounds |]. split.
    + rewrite (Hat 1 0). reflexivity.
    + rewrite (Hat 1 1). reflexivity.
Defined.

End SquareImage.

Section WriterFacts.
Import GoStrings Parser ParserTypes Generator GeneratorJSON GoImage.
Import Builder BuilderWording WriterWording.
Variable env : Env.
Variable b : Builder.










End WriterFacts.

Section WriterOutcome.
Import GoStrings Parser ParserTypes Generator GeneratorJSON GoImage.
Import Builder BuilderWording WriterWording.
Variable env : Env.
Variable b : Builder.











End WriterOutcome.

Section WriterExample.
Import GoStrings Parser ParserTypes Generator GeneratorJSON GoImage.
Import Builder BuilderWording WriterWording Examples.



End WriterExample.

(** ** Further properties: the template substitution *)

Section ReplaceFacts.
Import GoStrings Parser ParserTypes Generator Wording.

(** A pattern that starts with a dollar sign matches nowhere in a text
    without one. *)
Lemma replace_from_dollar_free (s old' new : string) :
  free_of "$" s ->
  replace_from 0 s (String "$" old') new = s.
Proof.
  unfold free_of. induction s as [|c r IH]; [done |].
  cbn [Contains]. destruct (Ascii.eqb_spec c "$") as [|Hc]; [done |].
  intros Hr. cbn [replace_from String.prefix].
  destruct (ascii_dec "$" c) as [E|_]; [by subst |].
  by rewrite (IH Hr).
Qed.

(** It passes over a dollar-free front of the text. *)
Lemma replace_from_dollar_free_front (a t old' new : string) :
  free_of "$" a ->
  replace_from 0 (a +:+ t) (String "$" old') new
  = a +:+ replace_from 0 t (String "$" old') new.
Proof.
  unfold free_of. induction a as [|c r IH]; [done |].
  cbn [Contains]. destruct (Ascii.eqb_spec c "$") as [|Hc]; [done |].
  intros Hr. cbn [String.append replace_from String.prefix].
  destruct (ascii_dec "$" c) as [E|_]; [by subst |].
  by rewrite (IH Hr).
Qed.

Lemma prefix_app (p b : string) : String.prefix p (p +:+ b) = true.
Proof.
  induction p as [|c r IH]; [by destruct b |].
  cbn [String.append String.prefix]. by destruct (ascii_dec c c).
Qed.

(** A count of bytes to pass over that is the length of the front of the
    text brings the scan to the rest. *)
Lemma replace_from_skip (r b old new : string) :
  replace_from (String.length r) (r +:+ b) old new = replace_from 0 b old new.
Proof. induction r as [|c r IH]; [done |]. exact IH. Qed.

(** An occurrence at the head of the text is replaced. *)
Lemma replace_from_match (c : ascii) (r b new : string) :
  replace_from 0 (String c r +:+ b) (String c r) new
  = new +:+ replace_from 0 b (String c r) new.
Proof.
  cbn [String.append replace_from].
  change (String c (r +:+ b)) with (String c r +:+ b).
  rewrite prefix_app. cbn [String.length Nat.pred].
  by rewrite replace_from_skip.
Qed.

(** What one replacement does to a dollar-free text around the
    placeholder [p]: [q] being a placeholder too, the occurrence is
    replaced when [q] is [p] and kept when it is another. *)
Lemma ReplaceAll_around (a b p q w : string) :
  p ∈ ManifestWording.placeholders -> q ∈ ManifestWording.placeholders ->
  free_of "$" a -> free_of "$" b ->
  ReplaceAll (a +:+ p +:+ b) q w
  = a +:+ (if decide (p = q) then w else p) +:+ b.
Proof.
  unfold ManifestWording.placeholders. rewrite !elem_of_cons.
  intros [->|[->|[->|[]%elem_of_nil]]] [->|[->|[->|[]%elem_of_nil]]] Ha Hb;
    unfold ReplaceAll; rewrite replace_from_dollar_free_front by done;
    f_equal; case_decide as E; try done;
    first [ rewrite replace_from_match
          | match goal with
            | |- replace_from 0 (?p +:+ b) ?q w = _ =>
                change (replace_from 0 (p +:+ b) q w)
                  with (p +:+ replace_from 0 b q w)
            end ];
    by rewrite replace_from_dollar_free.
Qed.

Lemma ReplaceAll_dollar_free (s q w : string) :
  q ∈ ManifestWording.placeholders -> free_of "$" s -> ReplaceAll s q w = s.
Proof.
  unfold ManifestWording.placeholders. rewrite !elem_of_cons.
  intros [->|[->|[->|[]%elem_of_nil]]] Hs; by apply replace_from_dollar_free.
Qed.

(** X1: a text without a dollar sign goes through [ReplaceVariables]
    unchanged, whatever the variables and the order of the replacements. *)
Theorem ReplaceVariables_keeps_dollar_free_text (o : RangeOrder)
    (content : string) (vars : Variables) :
  free_of "$" content -> ReplaceVariables o content vars = content.
Proof.
  intros Hfree. unfold ReplaceVariables.
  assert (Hp : forall q, q ∈ ManifestWording.placeholders <->
                         q = "${SERVICE_NAME}" \/ q = "${CONTAINER_NAME}"
                         \/ q = "${FIRST_PORT}").
  { intros q. unfold ManifestWording.placeholders.
    rewrite !elem_of_cons, elem_of_nil. tauto. }
  destruct o; cbn [replacements fold_left fst snd];
    do 3 (rewrite (ReplaceAll_dollar_free content)
            by (done || (apply Hp; tauto)));
    done.
Qed.

Lemma ReplaceVariables_keeps_dollar_free_text_witness :
  ReplaceVariables CFS "docker compose up -d"
    {| ServiceName := "web"; VContainerName := "${SERVICE_NAME}";
       FirstPort := "80"; ImageOrg := ""; ImageName := "" |}
  = "docker compose up -d".
Proof. by apply ReplaceVariables_keeps_dollar_free_text. Defined.

(** X2: in a text that has no dollar sign but for one placeholder, the
    placeholder gives way to the value of its variable, provided the
    value has no dollar sign; the order of the replacements plays no
    part. *)
Theorem ReplaceVariables_fills_single_placeholder (o : RangeOrder)
    (a b p v : string) (vars : Variables) :
  (p, v) ∈ replacements vars o ->
  free_of "$" a -> free_of "$" b -> free_of "$" v ->
  ReplaceVariables o (a +:+ p +:+ b) vars = a +:+ v +:+ b.
Proof.
  intros Hin Ha Hb Hv.
  assert (Hfilled : free_of "$" (a +:+ v +:+ b)).
  { by rewrite !free_of_app. }
  assert (Hp : forall q, q ∈ ManifestWording.placeholders <->
                         q = "${SERVICE_NAME}" \/ q = "${CONTAINER_NAME}"
                         \/ q = "${FIRST_PORT}").
  { intros q. unfold ManifestWording.placeholders.
    rewrite !elem_of_cons, elem_of_nil. tauto. }
  unfold ReplaceVariables.
  destruct o; cbn [replacements fold_left fst snd] in *;
    rewrite !elem_of_cons, elem_of_nil in Hin;
    destruct Hin as [[= -> ->]|[[= -> ->]|[[= -> ->]|[]]]];
    repeat first
      [ rewrite (ReplaceAll_dollar_free (a +:+ _ vars +:+ b)) by (done || (apply Hp; tauto))
      | rewrite ReplaceAll_around by (done || (apply Hp; tauto));
        case_decide; try done ];
    done.
Qed.

Lemma ReplaceVariables_fills_single_placeholder_witness :
  ReplaceVariables FCS "http://localhost:${FIRST_PORT}/"
    {| ServiceName := "web"; VContainerName := "${SERVICE_NAME}";
       FirstPort := "8080"; ImageOrg := ""; ImageName := "" |}
  = "http://localhost:8080/".
Proof.
  apply (ReplaceVariables_fills_single_placeholder FCS "http://localhost:"
           "/" "${FIRST_PORT}" "8080"); [| done | done | done].
  cbn [replacements FirstPort]. rewrite !elem_of_cons. tauto.
Defined.

End ReplaceFacts.

(** ** Further properties: the manifest *)

Section ManifestMore.
Import GoStrings Parser ParserTypes Generator Wording ManifestWording.
Import ManifestStages.

Lemma assign_defaults_lookup (key : string) :
  assign_all (map_to_list ManifestDefaults) ∅ !! key = ManifestDefaults !! key.
Proof.
  rewrite assign_all_lookup by apply NoDup_fst_map_to_list.
  rewrite list_to_map_to_list. by destruct (ManifestDefaults !! key).
Qed.

Lemma ManifestDefaults_lookup (key : string) :
  ManifestDefaults !! key
  = if decide (key = "arch") then Some "x86_64"
    else if decide (key = "source") then Some "thirdparty"
    else if decide (key = "desktop_uidir") then Some "ui"
    else if decide (key = "version") then Some "1.0.0"
    else None.
Proof.
  unfold ManifestDefaults. cbn [list_to_map foldr fst snd].
  repeat case_decide; subst;
    by rewrite ?lookup_insert_eq, ?lookup_insert_ne, ?lookup_empty by done.
Qed.

(** The entries of the manifest object once formatted and substituted. *)
Lemma resolve_as_stages (sched : string -> RangeOrder)
    (manifest : gmap string Value) (vars : Variables) :
  resolve sched manifest vars
  = let result :=
      assign_all
        (map (fun kv => (kv.1, ReplaceVariables (sched kv.1)
                                 (formatManifestValue kv.2) vars))
             (map_to_list manifest))
        (derived_defaults vars) in
    match manifest !! "desktop_applaunchname", manifest !! "desktop_appname" with
    | None, None =>
        match result !! "appname" with
        | Some appname =>
            if negb (String.eqb appname "")
            then <["desktop_applaunchname" := appname +:+ ".Application"]> result
            else result
        | None => result
        end
    | _, _ => result
    end.
Proof. reflexivity. Qed.

(** The loop over the manifest object leaves the value of a key it does
    not hold. *)
Lemma assigned_lookup (sched : string -> RangeOrder)
    (manifest : gmap string Value) (vars : Variables) (key : string) :
  assign_all
    (map (fun kv => (kv.1, ReplaceVariables (sched kv.1)
                             (formatManifestValue kv.2) vars))
         (map_to_list manifest))
    (derived_defaults vars) !! key
  = match manifest !! key with
    | Some value =>
        Some (ReplaceVariables (sched key) (formatManifestValue value) vars)
    | None => derived_defaults vars !! key
    end.
Proof.
  set (f := fun kv : string * Value => _).
  assert (E : (map f (map_to_list manifest)).*1 = (map_to_list manifest).*1).
  { rewrite <- list_fmap_compose. by apply list_fmap_ext. }
  rewrite assign_all_lookup by (rewrite E; apply NoDup_fst_map_to_list).
  destruct (manifest !! key) as [value|] eqn:Hlook.
  - erewrite elem_of_list_to_map_1; [done | |].
    + rewrite E. apply NoDup_fst_map_to_list.
    + apply (list_elem_of_fmap_2 f _ (key, value)).
      by apply elem_of_map_to_list.
  - rewrite (not_elem_of_list_to_map_1 _ key); [done |].
    rewrite E. intros ([k v] & -> & Hel%elem_of_map_to_list)%list_elem_of_fmap.
    simpl in Hlook. congruence.
Qed.

(** The value of [result] at every key but [desktop_applaunchname]. *)
Lemma resolve_lookup (sched : string -> RangeOrder)
    (manifest : gmap string Value) (vars : Variables) (key : string) :
  key <> "desktop_applaunchname" ->
  resolve sched manifest vars !! key
  = match manifest !! key with
    | Some value =>
        Some (ReplaceVariables (sched key) (formatManifestValue value) vars)
    | None => derived_defaults vars !! key
    end.
Proof.
  intros Hkey. rewrite resolve_as_stages. cbv zeta.
  rewrite <- assigned_lookup.
  destruct (manifest !! "desktop_applaunchname"); [done |].
  destruct (manifest !! "desktop_appname"); [done |].
  destruct (assign_all _ (derived_defaults vars) !! "appname") as [appname|]; [| done].
  destruct (negb (appname =? "")%string); [| done].
  by rewrite lookup_insert_ne.
Qed.

Ltac stage_cases vars :=
  unfold derived_defaults, unless_empty;
  destruct (String.eqb (ServiceName vars) ""), (String.eqb (ImageOrg vars) ""),
           (String.eqb (ImageName vars) ""), (String.eqb (FirstPort vars) "");
  cbn [negb];
  rewrite ?lookup_insert_eq, ?lookup_insert_ne by done;
  rewrite ?assign_defaults_lookup, ?ManifestDefaults_lookup;
  try done.

Lemma derived_appname vars :
  derived_defaults vars !! "appname" = unless_empty (ServiceName vars).
Proof. stage_cases vars. Qed.

Lemma derived_display_name vars :
  derived_defaults vars !! "display_name" = unless_empty (ServiceName vars).
Proof. stage_cases vars. Qed.

Lemma derived_applaunchname vars :
  derived_defaults vars !! "desktop_applaunchname"
  = (fun s => s +:+ ".Application") <$> unless_empty (ServiceName vars).
Proof. stage_cases vars. Qed.

Lemma derived_maintainer vars :
  derived_defaults vars !! "maintainer" = unless_empty (ImageOrg vars).
Proof. stage_cases vars. Qed.

Lemma derived_distributor vars :
  derived_defaults vars !! "distributor" = unless_empty (ImageOrg vars).
Proof. stage_cases vars. Qed.

Lemma derived_desc vars :
  derived_defaults vars !! "desc"
  = match unless_empty (ImageName vars) with
    | Some name => Some name
    | None => unless_empty (ServiceName vars)
    end.
Proof. stage_cases vars. Qed.

Lemma derived_service_port vars :
  derived_defaults vars !! "service_port" = unless_empty (FirstPort vars).
Proof. stage_cases vars. Qed.

Lemma derived_static vars key :
  key ∈ ["arch"; "source"; "desktop_uidir"; "version"] ->
  derived_defaults vars !! key = ManifestDefaults !! key.
Proof.
  rewrite !elem_of_cons, elem_of_nil.
  intros [->|[->|[->|[->|[]]]]]; stage_cases vars.
Qed.

End ManifestMore.

Section ManifestResolutionFacts.
Import GoStrings Parser ParserTypes Generator Wording ManifestWording.
Import ManifestStages ManifestResolution.

Lemma derived_other (vars : Variables) (key : string) :
  Forall (fun known => key <> known)
    ["arch"; "source"; "desktop_uidir"; "version"; "appname"; "display_name";
     "maintainer"; "distributor"; "desc"; "service_port";
     "desktop_applaunchname"] ->
  derived_defaults vars !! key = None.
Proof.
  intros H. repeat (apply Forall_cons in H as [? H]).
  unfold derived_defaults.
  destruct (String.eqb (ServiceName vars) ""), (String.eqb (ImageOrg vars) ""),
           (String.eqb (ImageName vars) ""), (String.eqb (FirstPort vars) "");
    cbn [negb];
    rewrite ?lookup_insert_ne by done;
    rewrite assign_defaults_lookup, ManifestDefaults_lookup;
    by rewrite !decide_False by done.
Qed.

Lemma derived_defaults_spec (vars : Variables) (key : string) :
  key <> "desktop_applaunchname" ->
  derived_defaults vars !! key = default_value vars key.
Proof.
  intros Hdal.
  destruct (decide (key = "arch")) as [->|]; [by rewrite derived_static by set_solver |].
  destruct (decide (key = "source")) as [->|]; [by rewrite derived_static by set_solver |].
  destruct (decide (key = "desktop_uidir")) as [->|]; [by rewrite derived_static by set_solver |].
  destruct (decide (key = "version")) as [->|]; [by rewrite derived_static by set_solver |].
  destruct (decide (key = "appname")) as [->|]; [by rewrite derived_appname |].
  destruct (decide (key = "display_name")) as [->|]; [by rewrite derived_display_name |].
  destruct (decide (key = "maintainer")) as [->|]; [by rewrite derived_maintainer |].
  destruct (decide (key = "distributor")) as [->|]; [by rewrite derived_distributor |].
  destruct (decide (key = "desc")) as [->|]; [by rewrite derived_desc |].
  destruct (decide (key = "service_port")) as [->|]; [by rewrite derived_service_port |].
  rewrite derived_other by (repeat constructor; done).
  unfold default_value, default_table. cbn [List.find fst snd].
  by rewrite !(proj2 (String.eqb_neq _ key)) by done.
Qed.

(** X3: every key of the manifest other than [desktop_applaunchname]
    resolves to the entry of the manifest object when there is one,
    formatted and with the placeholders substituted, and otherwise to its
    default: the static default, or the value taken from the variables,
    or nothing. *)
Theorem manifest_entry_overrides_defaults (sched : string -> RangeOrder)
    (manifest : gmap string Value) (vars : Variables) (key : string) :
  key <> "desktop_applaunchname" ->
  resolve sched manifest vars !! key
  = match manifest !! key with
    | Some value =>
        Some (ReplaceVariables (sched key) (formatManifestValue value) vars)
    | None => default_value vars key
    end.
Proof.
  intros Hkey. rewrite resolve_lookup by done.
  destruct (manifest !! key); [done |]. by apply derived_defaults_spec.
Qed.

Lemma manifest_entry_overrides_defaults_witness :
  let vars := {| ServiceName := "web"; VContainerName := "web";
                 FirstPort := "8080"; ImageOrg := "acme";
                 ImageName := "site" |} in
  let manifest : gmap string Value :=
    {[ "version" := VString "2.1.0"; "beta" := VBool true ]} in
  resolve (fun _ => SCF) manifest vars !! "version" = Some "2.1.0"
  /\ resolve (fun _ => SCF) manifest vars !! "beta" = Some "yes"
  /\ resolve (fun _ => SCF) manifest vars !! "arch" = Some "x86_64"
  /\ resolve (fun _ => SCF) manifest vars !! "desc" = Some "site"
  /\ resolve (fun _ => SCF) manifest vars !! "changelog" = None.
Proof.
  intros vars manifest.
  rewrite !(manifest_entry_overrides_defaults (fun _ => SCF) manifest vars)
    by done.
  by vm_compute.
Defined.

(** X4: [desktop_applaunchname] resolves to the entry of the manifest
    object when there is one; otherwise, when the manifest object has the
    legacy key [desktop_appname], to the service name followed by
    [.Application] (nothing without a service); otherwise to the resolved
    [appname] followed by [.Application], and when [appname] resolves to
    nothing or to the empty string, again to the service name followed by
    [.Application]. *)
Theorem applaunchname_follows_appname (sched : string -> RangeOrder)
    (manifest : gmap string Value) (vars : Variables) :
  let from_service :=
    (fun s => s +:+ ".Application") <$> unless_empty (ServiceName vars) in
  resolve sched manifest vars !! "desktop_applaunchname"
  = match manifest !! "desktop_applaunchname" with
    | Some value =>
        Some (ReplaceVariables (sched "desktop_applaunchname")
                (formatManifestValue value) vars)
    | None =>
        match manifest !! "desktop_appname" with
        | Some _ => from_service
        | None =>
            match resolve sched manifest vars !! "appname" with
            | Some appname =>
                if decide (appname = "") then from_service
                else Some (appname +:+ ".Application")
            | None => from_service
            end
        end
    end.
Proof.
  intros from_service.
  rewrite (resolve_lookup sched manifest vars "appname") by done.
  rewrite <- assigned_lookup.
  rewrite resolve_as_stages. cbv zeta.
  pose proof (assigned_lookup sched manifest vars "desktop_applaunchname") as Hdal.
  rewrite derived_applaunchname in Hdal. fold from_service in Hdal.
  destruct (manifest !! "desktop_applaunchname") as [value|]; [done |].
  destruct (manifest !! "desktop_appname"); [done |].
  destruct (assign_all _ (derived_defaults vars) !! "appname") as [appname|]; [| done].
  destruct (String.eqb_spec appname "") as [->|Hne]; cbn [negb].
  - by rewrite decide_True.
  - by rewrite decide_False, lookup_insert_eq.
Qed.

(** X5: when no value of the manifest object has a dollar sign once
    formatted, the manifest is the same under every order of the
    replacements. *)
Theorem GenerateManifest_stable_without_dollar
    (sched1 sched2 : string -> RangeOrder)
    (manifest : gmap string Value) (vars : Variables) :
  (forall key value, manifest !! key = Some value ->
                     free_of "$" (formatManifestValue value)) ->
  GenerateManifest sched1 manifest vars = GenerateManifest sched2 manifest vars.
Proof.
  intros Hfree.
  assert (E : resolve sched1 manifest vars = resolve sched2 manifest vars).
  { unfold resolve, resolve_range. f_equal.
    assert (Hmap : map (fun kv : string * Value =>
                          (kv.1, ReplaceVariables (sched1 kv.1)
                                   (formatManifestValue kv.2) vars))
                       (map_to_list manifest)
                   = map (fun kv : string * Value =>
                            (kv.1, ReplaceVariables (sched2 kv.1)
                                     (formatManifestValue kv.2) vars))
                         (map_to_list manifest)).
    { apply map_ext_in. intros [key value] Hin%list_elem_of_In%elem_of_map_to_list.
      cbn [fst snd].
      by rewrite !ReplaceVariables_keeps_dollar_free_text by eauto. }
    by rewrite Hmap. }
  unfold GenerateManifest, GenerateManifest_range.
  fold (resolve sched1 manifest vars). fold (resolve sched2 manifest vars).
  by rewrite E.
Qed.

Lemma GenerateManifest_stable_without_dollar_witness :
  let vars := {| ServiceName := "web"; VContainerName := "${SERVICE_NAME}";
                 FirstPort := "8080"; ImageOrg := ""; ImageName := "" |} in
  let manifest : gmap string Value :=
    {[ "appname" := VString "demo"; "beta" := VBool false ]} in
  GenerateManifest (fun _ => SCF) manifest vars
  = GenerateManifest (fun _ => FCS) manifest vars.
Proof.
  intros vars manifest. apply GenerateManifest_stable_without_dollar.
  intros key value Hlook. subst manifest.
  apply lookup_insert_Some in Hlook as [[<- <-]|[_ Hlook]]; [done |].
  by apply lookup_singleton_Some in Hlook as [<- <-].
Defined.

End ManifestResolutionFacts.

Section ManifestLines.
Import GoStrings Parser ParserTypes Generator Wording ManifestWording.
Import ManifestStages ManifestResolution.

Lemma ManifestFieldOrder_NoDup : NoDup ManifestFieldOrder.
Proof. apply (bool_decide_unpack _). by vm_compute. Qed.

(** X6: the manifest has one line for every key with a non-empty value
    and no other line: the keys of its lines are pairwise different, and
    a key is among them exactly when its resolved value is not empty. *)
Theorem GenerateManifest_one_line_per_key (sched : string -> RangeOrder)
    (manifest : gmap string Value) (vars : Variables) :
  let result := resolve sched manifest vars in
  GenerateManifest sched manifest vars
  = Join (map (fun key => formatManifestLine key (default "" (result !! key)))
              (emitted_keys result)) NL +:+ NL
  /\ NoDup (emitted_keys result)
  /\ forall key, key ∈ emitted_keys result <-> nonempty_at result key.
Proof.
  intros result. split; [reflexivity |].
  assert (Hord : forall key, key ∈ ordered_keys result
                             <-> key ∈ ManifestFieldOrder /\ nonempty_at result key).
  { intros key. unfold ordered_keys.
    rewrite list_elem_of_filter, has_value_spec. tauto. }
  split.
  - unfold emitted_keys. apply NoDup_app. split; [| split].
    + unfold ordered_keys. apply NoDup_filter, ManifestFieldOrder_NoDup.
    + intros key Hin Hrest. apply Hord in Hin as [Hin _].
      by apply remaining_keys_spec in Hrest as [Hnot _].
    + unfold remaining_keys, sort_Strings. rewrite merge_sort_Permutation.
      apply NoDup_filter, NoDup_fst_map_to_list.
  - intros key. unfold emitted_keys.
    rewrite elem_of_app, Hord, remaining_keys_spec.
    destruct (decide (key ∈ ManifestFieldOrder)); tauto.
Qed.

Lemma rune_count_ascii (s : string) :
  is_ascii s = true -> RuneCountInString s = String.length s.
Proof.
  unfold RuneCountInString. induction s as [|c r IH]; [done |].
  cbn [is_ascii]. intros [Hc Hr]%andb_true_iff.
  cbn [rune_count_from String.length]. unfold rune_size, first.
  rewrite Hc. cbn [Nat.pred]. by rewrite (IH Hr).
Qed.

Lemma length_append (s t : string) :
  String.length (s +:+ t) = (String.length s + String.length t)%nat.
Proof. induction s as [|c r IH]; [done |]. cbn. by rewrite IH. Qed.

Lemma length_spaces (n : nat) : String.length (spaces n) = n.
Proof. induction n as [|n IH]; [done |]. cbn. by rewrite IH. Qed.

(** X7: for a key of ASCII characters that is shorter than sixteen
    bytes, the key and the spaces after it fill sixteen bytes, so that
    the equals sign is the seventeenth byte of the line and the value
    starts at the nineteenth. *)
Theorem formatManifestLine_aligns_ascii_key (key value : string) :
  is_ascii key = true ->
  (String.length key < 16)%nat ->
  exists column,
    formatManifestLine key value = column +:+ "= " +:+ value
    /\ column = key +:+ spaces (16 - String.length key)
    /\ String.length column = 16%nat.
Proof.
  intros Hascii Hlen. exists (key +:+ spaces (16 - String.length key)).
  split; [| split; [done |]].
  - rewrite formatManifestLine_spec, decide_True by done.
    by rewrite (rune_count_ascii key Hascii), append_assoc.
  - rewrite length_append, length_spaces. lia.
Qed.

Lemma formatManifestLine_aligns_ascii_key_witness :
  exists column,
    formatManifestLine "version" "1.2.3" = column +:+ "= " +:+ "1.2.3"
    /\ column = "version" +:+ spaces (16 - String.length "version")
    /\ String.length column = 16%nat.
Proof.
  apply formatManifestLine_aligns_ascii_key; [reflexivity | simpl; lia].
Defined.

End ManifestLines.

(** ** Further properties: the parser *)

Section ParserMore.
Import GoStrings Parser ParserTypes Wording.

(** The pieces of a text that lacks a byte lack it too. *)
Lemma Split_keeps_free (s : string) (sep c : ascii) :
  free_of c s -> Forall (free_of c) (Split s sep).
Proof.
  unfold free_of. induction s as [|a r IH]; [by repeat constructor |].
  cbn [Contains Split]. destruct (Ascii.eqb a c) eqn:Ec; [done |].
  intros Hr. specialize (IH Hr).
  destruct (Ascii.eqb a sep).
  - by constructor.
  - destruct (Split r sep) as [|p ps].
    + repeat constructor. cbn. by rewrite Ec.
    + apply Forall_cons in IH as [Hp Hps]. constructor; [| done].
      cbn. by rewrite Ec.
Qed.

Lemma host_port_of_free (c : ascii) (tokens : list string) :
  Forall (free_of c) tokens -> free_of c (host_port_of tokens).
Proof.
  intros H. destruct tokens as [|t0 [|t1 [|t2 [|t3 rest]]]]; try done; cbn.
  - by apply Forall_cons in H as [? _].
  - by apply Forall_cons in H as [? _].
  - apply Forall_cons in H as [_ H]. by apply Forall_cons in H as [? _].
Qed.

(** X8: the host port that [extractHostPort] returns has neither a
    colon nor a slash, whatever the port mapping. *)
Theorem extractHostPort_plain (portMapping : string) :
  free_of ":" (extractHostPort portMapping)
  /\ free_of "/" (extractHostPort portMapping).
Proof.
  unfold extractHostPort.
  fold (host_port_of (Split (hd "" (Split portMapping "/")) ":")).
  destruct (Split_head portMapping "/") as [Hfree _].
  split; apply host_port_of_free.
  - apply Split_free.
  - by apply Split_keeps_free.
Qed.

Lemma hd_Split_slash (head rest : string) :
  free_of "/" head -> hd "" (Split (head +:+ "/" +:+ rest) "/") = head.
Proof.
  intros H. change (head +:+ "/" +:+ rest) with (head +:+ String "/" rest).
  by rewrite (Split_app_sep head rest "/" H).
Qed.

Lemma Split_at_sep (p rest : string) (sep : ascii) :
  free_of sep p ->
  Split (p +:+ String sep "" +:+ rest) sep = p :: Split rest sep.
Proof. apply Split_app_sep. Qed.

(** X9: the three shapes of a port mapping, with or without an ending
    [/protocol]: of [port] the port itself, of [host:container] the host
    part, of [ip:host:container] the host part; and of a mapping with
    four parts the empty string.  The parts have no colon and no slash;
    the ending may be any text. *)
Theorem extractHostPort_shapes (ip host container extra ending : string) :
  Forall (fun part => free_of ":" part /\ free_of "/" part)
    [ip; host; container; extra] ->
  let mappings suffix :=
    [host +:+ suffix;
     host +:+ ":" +:+ container +:+ suffix;
     ip +:+ ":" +:+ host +:+ ":" +:+ container +:+ suffix] in
  Forall (fun mapping => extractHostPort mapping = host)
    (mappings "" ++ mappings ("/" +:+ ending))
  /\ extractHostPort (ip +:+ ":" +:+ host +:+ ":" +:+ container +:+ ":" +:+ extra) = "".
Proof.
  intros H.
  apply Forall_cons in H as [[Ci Si] H]. apply Forall_cons in H as [[Ch Sh] H].
  apply Forall_cons in H as [[Cc Sc] H]. apply Forall_cons in H as [[Ce Se] _].
  cbv beta in *.
  assert (Hone : forall head, free_of "/" head ->
                 hd "" (Split head "/") = head).
  { intros head Hh. by rewrite Split_free_of. }
  assert (Hcut : forall head, free_of "/" head ->
                 hd "" (Split (head +:+ "/" +:+ ending) "/") = head).
  { intros head Hh. by apply hd_Split_slash. }
  assert (H1 : Split host ":" = [host]).
  { by apply Split_free_of. }
  assert (H2 : Split (host +:+ ":" +:+ container) ":" = [host; container]).
  { rewrite Split_at_sep by done. by rewrite Split_free_of. }
  assert (H3 : Split (ip +:+ ":" +:+ host +:+ ":" +:+ container) ":"
               = [ip; host; container]).
  { rewrite Split_at_sep by done. by rewrite H2. }
  assert (H4 : Split (ip +:+ ":" +:+ host +:+ ":" +:+ container +:+ ":" +:+ extra) ":"
               = [ip; host; container; extra]).
  { rewrite !Split_at_sep by done. by rewrite Split_free_of. }
  assert (F2 : free_of "/" (host +:+ ":" +:+ container)).
  { by rewrite !free_of_app. }
  assert (F3 : free_of "/" (ip +:+ ":" +:+ host +:+ ":" +:+ container)).
  { by rewrite !free_of_app. }
  assert (F4 : free_of "/" (ip +:+ ":" +:+ host +:+ ":" +:+ container +:+ ":" +:+ extra)).
  { by rewrite !free_of_app. }
  split.
  - cbn [app]. rewrite !append_nil_r. unfold extractHostPort.
    repeat constructor.
    + by rewrite Hone, H1.
    + by rewrite Hone, H2.
    + by rewrite Hone, H3.
    + by rewrite Hcut, H1.
    + replace (host +:+ ":" +:+ container +:+ "/" +:+ ending)
        with ((host +:+ ":" +:+ container) +:+ "/" +:+ ending)
        by (by rewrite !append_assoc).
      by rewrite Hcut, H2.
    + replace (ip +:+ ":" +:+ host +:+ ":" +:+ container +:+ "/" +:+ ending)
        with ((ip +:+ ":" +:+ host +:+ ":" +:+ container) +:+ "/" +:+ ending)
        by (by rewrite !append_assoc).
      by rewrite Hcut, H3.
  - unfold extractHostPort. by rewrite Hone, H4.
Qed.

Lemma extractHostPort_shapes_witness :
  extractHostPort "127.0.0.1:9000:9001/udp" = "9000"
  /\ extractHostPort "127.0.0.1:9000:9001:7" = "".
Proof.
  destruct (extractHostPort_shapes "127.0.0.1" "9000" "9001" "7" "udp")
    as [Hall Hfour].
  { repeat constructor. }
  split; [| exact Hfour].
  cbv zeta in Hall. eapply (Forall_lookup_1 _ _ 5) in Hall; [| reflexivity].
  exact Hall.
Defined.

End ParserMore.
